(** * fntags: the reactive state container and the keyed list reconciler

    A shallow embedding of the state container of [src/fntags.mjs]
    ([fnstate], [doSubscribe], [doSelect], [getPath], [doBindChildren],
    [reconcile], [keyMapper], [arrangeElements]) and the properties of the
    container and of the reconciliation pass that are checked against it.

    The container is a JavaScript closure over a mutable record [ctx]; here
    the record is a field of an explicit [World] that every operation
    threads through a small state-and-exception monad.  What the library
    receives from its environment (observer callbacks, selection callbacks,
    the render function of a bound collection, the members the values it
    is given inherit from their prototypes) enters as parameters. *)

From stdpp Require Import base option list gmap strings pretty.
From Stdlib Require Import ZArith Lia Ascii.

Set Warnings "-register-all".

Open Scope Z_scope.
Open Scope nat_scope.

(** ** JavaScript values *)

(** The values a container can hold.  Numbers are the integer-valued ones.
    An object is the record of its own properties, an array the list of its
    items; both are identified by their content.  A state function (the
    result of [fnstate]) is represented by its identity and by the value it
    currently holds. *)
Inductive value : Type :=
| VUndef
| VNull
| VBool (b : bool)
| VNum (n : Z)
| VStr (s : string)
| VObj (fields : list (string * value))
| VArr (items : list value)
| VFun (name : nat)
| VState (sid : nat) (cur : value).

Inductive jstype : Type :=
| TUndefined | TObject | TBoolean | TNumber | TString | TFunction.

(** [typeof v] *)
Definition typeof (v : value) : jstype :=
  match v with
  | VUndef => TUndefined
  | VNull => TObject
  | VBool _ => TBoolean
  | VNum _ => TNumber
  | VStr _ => TString
  | VObj _ => TObject
  | VArr _ => TObject
  | VFun _ => TFunction
  | VState _ _ => TFunction
  end.

Definition jstype_eqb (a b : jstype) : bool :=
  match a, b with
  | TUndefined, TUndefined | TObject, TObject | TBoolean, TBoolean
  | TNumber, TNumber | TString, TString | TFunction, TFunction => true
  | _, _ => false
  end.

(** [Array.isArray(v)] *)
Definition isArray (v : value) : bool :=
  match v with VArr _ => true | _ => false end.

(** [v.isFnState], for a [v] that is neither [null] nor [undefined] *)
Definition isFnState (v : value) : bool :=
  match v with VState _ _ => true | _ => false end.

(** The value of [v] in a condition: [if (v)]. *)
Definition truthy (v : value) : bool :=
  match v with
  | VUndef | VNull => false
  | VBool b => b
  | VNum n => negb (n =? 0)%Z
  | VStr s => negb (String.eqb s "")
  | _ => true
  end.

(** Strict equality [a === b]; objects and arrays are compared by
    content, in line with their representation. *)
Fixpoint strict_eq (a b : value) {struct a} : bool :=
  match a, b with
  | VUndef, VUndef => true
  | VNull, VNull => true
  | VBool x, VBool y => Bool.eqb x y
  | VNum x, VNum y => (x =? y)%Z
  | VStr x, VStr y => String.eqb x y
  | VObj xs, VObj ys =>
      (fix go (xs ys : list (string * value)) {struct xs} : bool :=
         match xs, ys with
         | [], [] => true
         | (k, x) :: xs', (k', y) :: ys' =>
             String.eqb k k' && strict_eq x y && go xs' ys'
         | _, _ => false
         end) xs ys
  | VArr xs, VArr ys =>
      (fix go (xs ys : list value) {struct xs} : bool :=
         match xs, ys with
         | [], [] => true
         | x :: xs', y :: ys' => strict_eq x y && go xs' ys'
         | _, _ => false
         end) xs ys
  | VFun x, VFun y => Nat.eqb x y
  | VState x cx, VState y cy => Nat.eqb x y && strict_eq cx cy
  | _, _ => false
  end.

(** Joining strings with a separator, as [Array.prototype.join] does. *)
Fixpoint join (sep : string) (parts : list string) : string :=
  match parts with
  | [] => ""
  | [p] => p
  | p :: rest => p +:+ sep +:+ join sep rest
  end.

(** The property name a value is coerced to when it indexes an object:
    [obj[v]].  Every function prints as its source text; the text itself is
    immaterial here and is kept abstract as one fixed name per kind. *)
Fixpoint to_property_key (v : value) : string :=
  match v with
  | VUndef => "undefined"
  | VNull => "null"
  | VBool true => "true"
  | VBool false => "false"
  | VNum n => pretty n
  | VStr s => s
  | VObj _ => "[object Object]"
  | VArr xs =>
      join ","
        ((fix go (xs : list value) : list string :=
            match xs with
            | [] => []
            | x :: xs' =>
                match x with
                | VUndef | VNull => ""
                | _ => to_property_key x
                end :: go xs'
            end) xs)
  | VFun _ => "function () { [code] }"
  | VState _ _ => "state (newState) { [code] }"
  end.

(** [s.split('.')]: a string always splits into at least one part. *)
Fixpoint split_dot_go (cur : string) (s : string) : list string :=
  match s with
  | EmptyString => [String.rev cur]
  | String c s' =>
      if Ascii.eqb c "."%char
      then String.rev cur :: split_dot_go "" s'
      else split_dot_go (String c cur) s'
  end.

Definition split_dot (s : string) : list string := split_dot_go "" s.

(** The index an array property name denotes, among [0 .. n-1]. *)
Definition array_index (part : string) (n : nat) : option nat :=
  List.find (fun i => String.eqb (pretty i) part) (seq 0 n).

(** Own property lookup in the property list of an object. *)
Fixpoint field_lookup (part : string) (fs : list (string * value)) : option value :=
  match fs with
  | [] => None
  | (k, v) :: fs' => if String.eqb k part then Some v else field_lookup part fs'
  end.

(** ** Errors *)

Inductive exn : Type :=
| Error (message : string)
| TypeError (message : string)
| DOMException (name : string).

Definition InvalidPath : exn := Error "Invalid path".
Definition NotAnObject : exn := Error "Value is not an object".
Definition DuplicateKey : exn :=
  Error "Duplicate keys in a bound array are not allowed, state reset to previous value.".
Definition NotAnArray : exn :=
  Error "You can only use bindChildren with a state that contains an array. try myState([mystate]) before calling this function.".
Definition MissingParent : exn :=
  Error "You must provide a parent element to bind the children to. aka Need Bukkit.".

(** ** The container and its world *)

(** Callbacks supplied by the caller are named by a label; what they do when
    invoked is a parameter of the library below. *)
Definition label := nat.

(** What can sit in the observer registry: a caller's function, or the
    closure [doBindChildren] subscribes. *)
Inductive callback : Type :=
| UserFn (l : label)
| ReconcileFn.

(** An entry [{ id, fn }] of [ctx.observers]. *)
Record Observer : Type := mkObserver { obs_id : nat; obs_fn : callback }.

(** A rendered unit: a DOM node with its identity, its [key] tag
    ([VUndef] while untagged) and whether it has [insertAdjacentElement]
    (elements do, text nodes do not). *)
Record Node : Type := mkNode { nid : nat; key : value; insertAdjacentElement : bool }.

(** [ctx.mapKey]: absent, the caller's key function, or the fallback
    [(o, i) => i] installed by [doBindChildren]. *)
Inductive MapKey : Type :=
| NoMapKey
| UserMapKey (f : value -> value)
| IndexMapKey.

(** An entry [{ element, update, parent }] of [ctx.bindContexts], with the
    [boundElementByKey] map [reconcile] adds to it.  [parent] is the list of
    the parent's child nodes; [element] is the caller's render function,
    of which the model keeps whether the unit rendered for an item state is
    an element.  A rendered unit is a new node, and the bind contexts of
    a container have parents of their own.  [update] is not read by the
    reconciliation and is left out. *)
Record BindContext : Type := mkBindContext {
  element : value -> bool;
  parent : list Node;
  boundElementByKey : gmap string Node
}.

(** The record [ctx] closed over by the state function. *)
Record Ctx : Type := mkCtx {
  state_id : nat;
  currentValue : value;
  observers : list Observer;
  bindContexts : list BindContext;
  selectObservers : gmap string (list label);
  nextId : nat;
  mapKey : MapKey;
  selected : value
}.

(** Operations on the children of a parent node. *)
Inductive dom_op : Type :=
| Append (n : nat)
| InsertBefore (n ref : nat)
| ReplaceWith (old new : nat)
| Remove (n : nat)
| ClearChildren (removed : list nat).

(** What an execution leaves behind, in the order it happened. *)
Inductive event : Type :=
| Notified (id : nat) (newState oldState : value)
| SelectFired (l : label)
| Warned (message : string)
| Rendered (n : nat) (valueState : value)
| Dom (bindContext : nat) (op : dom_op).

(** The world: the container, the [list] variable of every unsubscribe
    closure handed out ([true] while it still refers to the registry,
    [false] once it was set to [null]), the trace, the errors of rejected
    promises, and the counters nodes and item states are named from. *)
Record World : Type := mkWorld {
  ctx : Ctx;
  tokens : gmap nat bool;
  trace : list event;
  rejected : list exn;
  next_node : nat;
  next_state : nat
}.

Definition set_ctx (c : Ctx) (w : World) : World :=
  mkWorld c (tokens w) (trace w) (rejected w) (next_node w) (next_state w).
Definition set_tokens (t : gmap nat bool) (w : World) : World :=
  mkWorld (ctx w) t (trace w) (rejected w) (next_node w) (next_state w).
Definition set_trace (t : list event) (w : World) : World :=
  mkWorld (ctx w) (tokens w) t (rejected w) (next_node w) (next_state w).
Definition set_rejected (r : list exn) (w : World) : World :=
  mkWorld (ctx w) (tokens w) (trace w) r (next_node w) (next_state w).
Definition set_next_node (n : nat) (w : World) : World :=
  mkWorld (ctx w) (tokens w) (trace w) (rejected w) n (next_state w).
Definition set_next_state (n : nat) (w : World) : World :=
  mkWorld (ctx w) (tokens w) (trace w) (rejected w) (next_node w) n.

Definition set_currentValue (v : value) (c : Ctx) : Ctx :=
  mkCtx (state_id c) v (observers c) (bindContexts c) (selectObservers c)
        (nextId c) (mapKey c) (selected c).
Definition set_observers (o : list Observer) (c : Ctx) : Ctx :=
  mkCtx (state_id c) (currentValue c) o (bindContexts c) (selectObservers c)
        (nextId c) (mapKey c) (selected c).
Definition set_bindContexts (b : list BindContext) (c : Ctx) : Ctx :=
  mkCtx (state_id c) (currentValue c) (observers c) b (selectObservers c)
        (nextId c) (mapKey c) (selected c).
Definition set_selectObservers (s : gmap string (list label)) (c : Ctx) : Ctx :=
  mkCtx (state_id c) (currentValue c) (observers c) (bindContexts c) s
        (nextId c) (mapKey c) (selected c).
Definition set_nextId (n : nat) (c : Ctx) : Ctx :=
  mkCtx (state_id c) (currentValue c) (observers c) (bindContexts c)
        (selectObservers c) n (mapKey c) (selected c).
Definition set_mapKey (m : MapKey) (c : Ctx) : Ctx :=
  mkCtx (state_id c) (currentValue c) (observers c) (bindContexts c)
        (selectObservers c) (nextId c) m (selected c).

(** ** A state and exception monad

    A computation over a state [S] returns normally, throws (the state it
    had reached is kept: JavaScript undoes nothing), or exhausts the fuel
    that bounds re-entrant calls and loops over live arrays. *)
Inductive outcome (S A : Type) : Type :=
| Ret (a : A) (s : S)
| Raise (e : exn) (s : S)
| OutOfFuel.
Arguments Ret {S A} a s.
Arguments Raise {S A} e s.
Arguments OutOfFuel {S A}.

Definition M (S A : Type) : Type := S -> outcome S A.

Definition ret {S A} (a : A) : M S A := fun s => Ret a s.
Definition throw {S A} (e : exn) : M S A := fun s => Raise e s.
Definition bind {S A B} (m : M S A) (k : A -> M S B) : M S B :=
  fun s => match m s with
           | Ret a s' => k a s'
           | Raise e s' => Raise e s'
           | OutOfFuel => OutOfFuel
           end.
Definition gets {S A} (f : S -> A) : M S A := fun s => Ret (f s) s.
Definition modify {S} (f : S -> S) : M S unit := fun s => Ret tt (f s).

Notation "'let!' x ':=' c 'in' k" := (bind c (fun x => k))
  (at level 10, x pattern, c at level 100, k at level 200).
Notation "c1 '>>' c2" := (bind c1 (fun _ => c2))
  (at level 100, c2 at level 200, right associativity).

(** A loop body run over a list, left to right, stopping at the first throw. *)
Fixpoint for_each {S A} (body : A -> M S unit) (l : list A) : M S unit :=
  match l with
  | [] => ret tt
  | x :: l' => body x >> for_each body l'
  end.

Definition log_event (e : event) : M World unit :=
  modify (fun w => set_trace (trace w ++ [e]) w).
Definition modify_ctx (f : Ctx -> Ctx) : M World unit :=
  modify (fun w => set_ctx (f (ctx w)) w).

(** [new Promise(executor).catch(handler)]: the executor runs at once,
    inside the constructor; what it throws does not reach the caller but
    rejects the promise, whose handler logs and rethrows on a later tick. *)
Definition promise {A} (executor : M World A) : M World unit :=
  fun w => match executor w with
           | Ret _ w' => Ret tt w'
           | Raise e w' => Ret tt (set_rejected (rejected w' ++ [e]) w')
           | OutOfFuel => OutOfFuel
           end.

(** ** The DOM operations the reconciler uses, on the children of a parent *)

Definition same_node (a b : Node) : bool := Nat.eqb (nid a) (nid b).

(** The children without node [n]: a node sits at one place at most, so
    every insertion first takes the node out of where it was. *)
Definition detach (n : Node) (cs : list Node) : list Node :=
  List.filter (fun c => negb (same_node c n)) cs.

Definition is_child (n : Node) (cs : list Node) : bool :=
  existsb (same_node n) cs.

(** [parent.lastChild] *)
Definition lastChild (cs : list Node) : option Node := last cs.

(** [n.previousSibling]; [null] for a first child and for a detached node. *)
Fixpoint previousSibling (n : Node) (cs : list Node) : option Node :=
  match cs with
  | a :: ((b :: _) as rest) =>
      if same_node b n then Some a else previousSibling n rest
  | _ => None
  end.

(** [parent.append(n)] *)
Definition append (n : Node) (cs : list Node) : list Node := detach n cs ++ [n].

(** The children with [n] put immediately before [ref], a child. *)
Fixpoint put_before (n ref : Node) (cs : list Node) : list Node :=
  match cs with
  | [] => []
  | c :: cs' => if same_node c ref then n :: c :: cs' else c :: put_before n ref cs'
  end.

(** The children with [old] exchanged for [new]. *)
Fixpoint exchange (old new : Node) (cs : list Node) : list Node :=
  match cs with
  | [] => []
  | c :: cs' => if same_node c old then new :: cs' else c :: exchange old new cs'
  end.

(** [old.replaceWith(new)], for a child [old] *)
Definition replaceWith (old new : Node) (cs : list Node) : list Node :=
  if same_node old new then cs else exchange old new (detach new cs).

(** ** The part of the world a placement pass works on *)

(** The children of the parent, [bindContext.boundElementByKey],
    [ctx.selectObservers], the trace and the node counter. *)
Record Pass : Type := mkPass {
  children : list Node;
  bound : gmap string Node;
  selObs : gmap string (list label);
  events : list event;
  fresh_id : nat
}.

Definition dom_call (j : nat) (op : dom_op) (cs : list Node) : M Pass unit :=
  modify (fun p => mkPass cs (bound p) (selObs p) (events p ++ [Dom j op]) (fresh_id p)).

(** [ref.insertAdjacentElement('beforeBegin', n)]: nothing happens when
    [ref] has no parent. *)
Definition insertAdjacentBefore (j : nat) (ref n : Node) : M Pass unit :=
  fun p =>
    if is_child ref (children p)
    then dom_call j (InsertBefore (nid n) (nid ref))
             (put_before n ref (detach n (children p))) p
    else Ret tt p.

(** [parent.insertBefore(n, ref)]: throws when [ref] is not a child. *)
Definition insertBefore (j : nat) (n ref : Node) : M Pass unit :=
  fun p =>
    if is_child ref (children p)
    then dom_call j (InsertBefore (nid n) (nid ref))
             (put_before n ref (detach n (children p))) p
    else Raise (DOMException "NotFoundError") p.

(** The view a pass has of the world, for bind context [bc], and the
    world with what the pass did to bind context [j] written back. *)
Definition pass_of (w : World) (bc : BindContext) : Pass :=
  mkPass (parent bc) (boundElementByKey bc) (selectObservers (ctx w))
         (trace w) (next_node w).

Definition world_of (j : nat) (bc : BindContext) (p : Pass) (w : World) : World :=
  set_next_node (fresh_id p)
    (set_trace (events p)
       (set_ctx
          (set_selectObservers (selObs p)
             (set_bindContexts
                (<[j := mkBindContext (element bc) (children p) (bound p)]>
                   (bindContexts (ctx w)))
                (ctx w))) w)).

(** ** Object literals used as maps *)

(** [keys], [boundElementByKey] and [ctx.selectObservers] are object
    literals [{}]: a read [obj[name]] finds the own properties of the
    object and, under these twelve names, the members of
    [Object.prototype], each of them truthy and none [undefined]. *)
Definition Object_prototype : list string :=
  ["constructor"; "__defineGetter__"; "__defineSetter__"; "hasOwnProperty";
   "__lookupGetter__"; "__lookupSetter__"; "isPrototypeOf";
   "propertyIsEnumerable"; "toString"; "valueOf"; "__proto__";
   "toLocaleString"].

Definition inherited (name : string) : bool :=
  bool_decide (name ∈ Object_prototype).

(** [obj[name] !== undefined], and as well the truth of [obj[name]] when
    the own properties hold truthy values. *)
Definition defined_in {A} (obj : gmap string A) (name : string) : bool :=
  match obj !! name with
  | Some _ => true
  | None => inherited name
  end.

(** ** The library *)

(** [keyMapper(mapKey, value)].  A call [mapKey(value)] passes one
    argument, so the second parameter of the fallback [(o, i) => i] is
    [undefined]. *)
Definition call_mapKey (f : MapKey) (args : list value) : value :=
  match f with
  | NoMapKey => VUndef
  | UserMapKey f => f (nth 0 args VUndef)
  | IndexMapKey => nth 1 args VUndef
  end.

Definition is_function (f : MapKey) : bool :=
  match f with NoMapKey => false | _ => true end.

Definition keyMapper (mapKey : MapKey) (v : value) : value :=
  if negb (jstype_eqb (typeof v) TObject) then v
  else if negb (is_function mapKey) then VNum 0
  else call_mapKey mapKey [v].

(** [valueState()] for an item state *)
Definition state_value (valueState : value) : value :=
  match valueState with VState _ cur => cur | v => v end.

(** [fnstate(v)] for an item of a bound array: a new state holding [v]. *)
Definition fnstate_item (v : value) : M World value :=
  fun w => Ret (VState (next_state w) v) (set_next_state (S (next_state w)) w).

(** The items of an array; the reconciliation is only entered with one. *)
Definition array_items (v : value) : list value :=
  match v with VArr xs => xs | _ => [] end.

(** [ctx.currentValue[i] = v] *)
Definition store_item (i : nat) (v : value) : M World unit :=
  modify_ctx (fun c =>
    set_currentValue (VArr (<[i := v]> (array_items (currentValue c)))) c).

(** The own properties the representation of a value lists: the fields
    of an object, the items and the [length] of an array. *)
Definition own_property (part : string) (curr : value) : option value :=
  match curr with
  | VObj fs => field_lookup part fs
  | VArr xs =>
      match array_index part (length xs) with
      | Some i => xs !! i
      | None => if String.eqb part "length" then Some (VNum (Z.of_nat (length xs))) else None
      end
  | _ => None
  end.

(** [o[part]] for an [o] that holds its data in own properties, as the
    key function [o => o.id] reads it. *)
Definition get_property (part : string) (curr : value) : value :=
  default VUndef (own_property part curr).

(** [parts.reduce(f, init)] *)
Fixpoint reduce {S A B} (f : A -> B -> M S A) (parts : list B) (init : A) : M S A :=
  match parts with
  | [] => ret init
  | p :: parts' => let! a := f init p in reduce f parts' a
  end.

Section Host.

(** What a value has besides the own properties its representation
    lists: the members it inherits along its prototype chain, and the
    properties built into functions.  An own property hides a member of
    the same name. *)
Context (members : value -> string -> option value).

(** [part in curr] and [curr[part]] *)
Definition has_property (part : string) (curr : value) : M World bool :=
  match curr with
  | VObj _ | VArr _ | VFun _ | VState _ _ =>
      ret (bool_decide (is_Some (own_property part curr))
           || bool_decide (is_Some (members curr part)))
  | _ => throw (TypeError "Cannot use 'in' operator to search for a key in a value that is not an object")
  end.

Definition get_member (part : string) (curr : value) : value :=
  match own_property part curr with
  | Some v => v
  | None => default VUndef (members curr part)
  end.

(** [ctx.state.getPath] *)
Definition getPath (path : value) : M World value :=
  match path with
  | VStr p =>
      let! cur := gets (fun w => currentValue (ctx w)) in
      if negb (jstype_eqb (typeof cur) TObject) then throw NotAnObject
      else
        reduce (fun curr part =>
                  let! present := has_property part curr in
                  if present then ret (get_member part curr) else ret VUndef)
               (split_dot p) cur
  | _ => throw InvalidPath
  end.

End Host.

(** [doSubscribe(ctx, ctx.observers, listener)]; the result names the
    unsubscribe closure. *)
Definition doSubscribe (listener : callback) : M World nat :=
  fun w =>
    let id := nextId (ctx w) in
    let c := set_observers (observers (ctx w) ++ [mkObserver id listener])
               (set_nextId (S id) (ctx w)) in
    Ret id (set_tokens (<[id := true]> (tokens w)) (set_ctx c w)).

(** [list.findIndex(l => l.id === id)] *)
Fixpoint findIndex (id : nat) (l : list Observer) : option nat :=
  match l with
  | [] => None
  | o :: l' => if Nat.eqb (obs_id o) id then Some 0 else S <$> findIndex id l'
  end.

(** [list.splice(i, 1)], where [i] is the result of [findIndex]: [-1],
    for an entry not found, counts from the end and takes the last out. *)
Definition splice_one (i : option nat) (l : list Observer) : list Observer :=
  match i with
  | Some i => delete i l
  | None => removelast l
  end.

(** Calling the closure [doSubscribe] returned:
    [list.splice(list.findIndex(l => l.id === id), 1); list = null] *)
Definition unsubscribe (token : nat) : M World unit :=
  fun w =>
    match tokens w !! token with
    | Some true =>
        let l := observers (ctx w) in
        Ret tt (set_tokens (<[token := false]> (tokens w))
                  (set_ctx (set_observers (splice_one (findIndex token l) l) (ctx w)) w))
    | Some false =>
        Raise (TypeError "Cannot read properties of null (reading 'splice')") w
    | None => Raise (TypeError "not a function") w
    end.


(** [ctx.state.selected] *)
Definition selected_key : M World value := gets (fun w => selected (ctx w)).

Section Library.

(** What the caller's observer [l] does when called with
    [(newState, oldState)], and what the caller's selection callback [l]
    does when called. *)
Context (behave : label -> value -> value -> M World unit)
        (on_select : label -> M World unit).

(** [if (ctx.selectObservers[key] !== undefined)
      for (const obs of ctx.selectObservers[key]) obs()].
    Under an inherited name the read gives a member of [Object.prototype],
    which cannot be iterated. *)
Definition fire_select (key : value) : M World unit :=
  let! obs := gets (fun w => selectObservers (ctx w) !! to_property_key key) in
  match obs with
  | Some l => for_each (fun o => log_event (SelectFired o) >> on_select o) l
  | None =>
      if inherited (to_property_key key)
      then throw (TypeError "ctx.selectObservers[key] is not iterable")
      else ret tt
  end.


(** *** One placement pass of [arrangeElements] *)

Section Placement.

Context (keys : gmap string nat) (render : value -> bool) (j : nat).

(** [boundElementByKey[key]], rendering and tagging a unit when there
    is none; the second component is [isNew].  The key has passed the key
    loop, so it is no name of [Object.prototype] and the read is one of the
    own properties. *)
Definition current_unit (k valueState : value) : M Pass (Node * bool) :=
  fun p =>
    match bound p !! to_property_key k with
    | Some n => Ret (n, false) p
    | None =>
        let n := mkNode (fresh_id p) k (render valueState) in
        Ret (n, true)
            (mkPass (children p) (<[to_property_key k := n]> (bound p)) (selObs p)
                    (events p ++ [Rendered (fresh_id p) valueState])
                    (S (fresh_id p)))
    end.

Definition do_append (n : Node) : M Pass unit :=
  fun p => dom_call j (Append (nid n)) (append n (children p)) p.

Definition do_replace (old new : Node) : M Pass unit :=
  fun p => dom_call j (ReplaceWith (nid old) (nid new))
             (replaceWith old new (children p)) p.

(** The stale branch: the unit left of [prev] belongs to no item.
    [delete] acts on own properties only, so the test on
    [ctx.selectObservers] matters for those alone. *)
Definition drop_stale (sibling current : Node) : M Pass unit :=
  modify (fun p =>
    let k := to_property_key (key sibling) in
    mkPass (children p) (delete k (bound p))
           (if bool_decide (is_Some (selObs p !! k)) && insertAdjacentElement current
            then delete k (selObs p) else selObs p)
           (events p) (fresh_id p)).

(** "place the element in the parent" (lines 553-586) *)
Definition place_in_parent (prev : option Node) (current : Node) (isNew : bool)
    : M Pass unit :=
  match prev with
  | None =>
      let! cs := gets children in
      match lastChild cs with
      | Some l =>
          if negb (strict_eq (key l) (key current)) then do_append current
          else ret tt
      | None => do_append current
      end
  | Some prev =>
      let! cs := gets children in
      match previousSibling prev cs with
      | None =>
          if insertAdjacentElement prev && insertAdjacentElement current
          then insertAdjacentBefore j prev current
          else insertBefore j current prev
      | Some sibling =>
          if negb (strict_eq (key sibling) (key current)) then
            if negb (defined_in keys (to_property_key (key sibling))) then
              drop_stale sibling current >> do_replace sibling current
            else if isNew then
              if insertAdjacentElement prev
              then insertAdjacentBefore j prev current
              else insertBefore j current prev
            else do_replace sibling current
          else ret tt
      end
  end.

(** The body of the loop [for (let i = length - 1; i >= 0; i--)]; its
    result is the next [prev]. *)
Definition place (prev : option Node) (item : value * value) : M Pass (option Node) :=
  let '(k, valueState) := item in
  let! (current, isNew) := current_unit k valueState in
  place_in_parent prev current isNew >>
  ret (Some current).

(** The loop, over the items from the last to the first. *)
Fixpoint place_all (prev : option Node) (items : list (value * value)) : M Pass unit :=
  match items with
  | [] => ret tt
  | it :: rest => let! prev' := place prev it in place_all prev' rest
  end.

(** The body of the loop that catches strays. *)
Definition remove_stray (kn : string * Node) : M Pass unit :=
  fun p =>
    Ret tt (mkPass (detach kn.2 (children p)) (delete kn.1 (bound p))
                   (delete kn.1 (selObs p))
                   (events p ++ [Dom j (Remove (nid kn.2))]) (fresh_id p)).

(** [for (const key in bindContext.boundElementByKey)]: the keys of
    the map are enumerated once; those absent from [keys] are strays.
    The order in which strays are met is that of [map_to_list]. *)
Definition catch_strays : M Pass unit :=
  fun p =>
    for_each remove_stray
      (filter (fun kn => defined_in keys kn.1 = false) (map_to_list (bound p))) p.

End Placement.

(** The branch for an empty array:
    [parent.textContent = ''; boundElementByKey = {}; ctx.selectObservers = {}] *)
Definition clear_all (j : nat) : M Pass unit :=
  modify (fun p =>
    mkPass [] ∅ ∅
           (match children p with
            | [] => events p
            | cs => events p ++ [Dom j (ClearChildren (nid <$> cs))]
            end)
           (fresh_id p)).

(** Running a pass on bind context [j] of the world. *)
Definition with_pass {A} (j : nat) (m : M Pass A) : M World A :=
  fun w =>
    match bindContexts (ctx w) !! j with
    | None => Raise (TypeError "bindContext is undefined") w
    | Some bc =>
        match m (pass_of w bc) with
        | Ret a p => Ret a (world_of j bc p w)
        | Raise e p => Raise e (world_of j bc p w)
        | OutOfFuel => OutOfFuel
        end
    end.

Section State.

(** [ctx.state], for the calls made from inside a dispatch round, and
    the number of steps a loop over the live registry may take. *)
Context (state_rec : list value -> M World value) (budget : nat).

(** The loop that computes the keys (lines 520-534): every item that
    is not a state is replaced by a new state in the array; a key met
    before rolls the value back and throws. *)
Fixpoint compute_keys (oldState : value) (items : list value) (i : nat)
    (keys : gmap string nat) (keysArr : list value)
    : M World (gmap string nat * list value) :=
  match items with
  | [] => ret (keys, keysArr)
  | v :: rest =>
      let! valueState :=
        (if isFnState v then ret v
         else let! st := fnstate_item v in store_item i st >> ret st) in
      let! mk := gets (fun w => mapKey (ctx w)) in
      let k := keyMapper mk (state_value valueState) in
      if defined_in keys (to_property_key k) then
        (if truthy oldState then state_rec [oldState] >> ret tt else ret tt) >>
        throw DuplicateKey
      else
        compute_keys oldState rest (S i) (<[to_property_key k := i]> keys)
                     (keysArr ++ [k])
  end.

(** [arrangeElements(ctx, bindContext, oldState)], for the bind context
    at index [j]. *)
Definition arrangeElements (j : nat) (oldState : value) : M World unit :=
  let! items := gets (fun w => array_items (currentValue (ctx w))) in
  match items with
  | [] => with_pass j (clear_all j)
  | _ =>
      let! (keys, keysArr) := compute_keys oldState items 0 ∅ [] in
      let! states := gets (fun w => array_items (currentValue (ctx w))) in
      let! render := gets (fun w =>
        match bindContexts (ctx w) !! j with
        | Some bc => element bc
        | None => fun _ => true
        end) in
      with_pass j (place_all keys render j None (rev (zip keysArr states)) >>
                   catch_strays keys j)
  end.

(** [reconcile(ctx, oldState)] *)
Definition reconcile (oldState : value) : M World unit :=
  let! n := gets (fun w => length (bindContexts (ctx w))) in
  for_each (fun j => arrangeElements j oldState) (seq 0 n).

(** The observer [doBindChildren] subscribes. *)
Definition reconcile_observer (newState oldState : value) : M World unit :=
  let! cur := gets (fun w => currentValue (ctx w)) in
  if negb (isArray cur) then
    log_event (Warned "A state used with bindChildren was updated to a non array value. This will be converted to an array of 1 and the state will be updated.") >>
    promise (let! cur := gets (fun w => currentValue (ctx w)) in
             state_rec [VArr [cur]])
  else reconcile oldState.

(** [observer.fn(newState, oldState)] *)
Definition call_observer (o : Observer) (newState oldState : value) : M World unit :=
  log_event (Notified (obs_id o) newState oldState) >>
  match obs_fn o with
  | UserFn l => behave l newState oldState
  | ReconcileFn => reconcile_observer newState oldState
  end.

(** [for (const observer of ctx.observers) observer.fn(newState, oldState)]:
    the iterator reads the live array at the next index.  The two
    arguments are handed on as they were received.  An array is passed by
    reference, so an observer called after the reconciler's may find in it
    the item states the key loop stored there; here it is named by the
    content it had when it was given to [set]. *)
Fixpoint notify (steps : nat) (i : nat) (newState oldState : value) : M World unit :=
  match steps with
  | 0 => fun _ => OutOfFuel
  | S steps' =>
      let! next := gets (fun w => observers (ctx w) !! i) in
      match next with
      | None => ret tt
      | Some o =>
          call_observer o newState oldState >>
          notify steps' (S i) newState oldState
      end
  end.

(** The body of [ctx.state]: called with no argument, or with the state
    function itself as its one argument, it reads; otherwise it writes
    its first argument and notifies. *)
Definition state_body (args : list value) : M World value :=
  let! c := gets ctx in
  let reads :=
    match args with
    | [] => true
    | [VState sid _] => Nat.eqb sid (state_id c)
    | _ => false
    end in
  if reads then ret (currentValue c)
  else
    let newState := nth 0 args VUndef in
    let oldState := currentValue c in
    modify_ctx (set_currentValue newState) >>
    notify budget 0 newState oldState >>
    ret newState.

End State.

(** [ctx.state(...args)], with fuel for the calls it makes to itself
    through its observers. *)
Fixpoint state (fuel : nat) (args : list value) : M World value :=
  match fuel with
  | 0 => fun _ => OutOfFuel
  | S fuel' => state_body (state fuel') fuel' args
  end.

(** [ctx.currentValue.map(v => v.isFnState ? v : fnstate(v))] *)
Fixpoint wrap_items (items : list value) : M World (list value) :=
  match items with
  | [] => ret []
  | v :: rest =>
      let! st :=
        match v with
        | VUndef | VNull =>
            throw (TypeError "Cannot read properties of undefined (reading 'isFnState')")
        | VState _ _ => ret v
        | _ => fnstate_item v
        end in
      let! rest' := wrap_items rest in
      ret (st :: rest')
  end.

(** [doBindChildren(ctx, parent, element, update)], for an [element] that
    is a function; [parent] is [None] when what was passed does not
    render to a node, and else the children of the node.  The result is
    the index of the new bind context. *)
Definition doBindChildren (fuel : nat) (parent : option (list Node))
    (element : value -> bool) : M World nat :=
  match parent with
  | None => throw MissingParent
  | Some cs =>
      let! mk := gets (fun w => mapKey (ctx w)) in
      (if negb (is_function mk) then
         log_event (Warned "Using value index as key, may not work correctly when moving items...") >>
         modify_ctx (set_mapKey IndexMapKey)
       else ret tt) >>
      let! cur := gets (fun w => currentValue (ctx w)) in
      if negb (isArray cur) then throw NotAnArray
      else
        let! items := wrap_items (array_items cur) in
        modify_ctx (set_currentValue (VArr items)) >>
        let! j := gets (fun w => length (bindContexts (ctx w))) in
        modify_ctx (fun c =>
          set_bindContexts (bindContexts c ++ [mkBindContext element cs ∅]) c) >>
        let! _ := doSubscribe ReconcileFn in
        reconcile (state fuel) VUndef >>
        ret j
  end.

End Library.

(** [fnstate(initialValue, mapKey)]: the world of a new container. *)
Definition fnstate (initialValue : value) (mapKey : MapKey) : World :=
  mkWorld (mkCtx 0 initialValue [] [] ∅ 0 mapKey VUndef) ∅ [] [] 0 1.

(** ** Notions the properties are stated with *)

(** Callbacks that return normally and touch nothing of the world. *)
Definition inert_observer : label -> value -> value -> M World unit :=
  fun _ _ _ => ret tt.

(** A value [in] can be asked of, and whether it has [part] among its
    properties. *)
Definition structured (v : value) : bool :=
  match v with
  | VObj _ | VArr _ | VFun _ | VState _ _ => true
  | _ => false
  end.

Definition present (members : value -> string -> option value)
    (part : string) (v : value) : bool :=
  bool_decide (is_Some (own_property part v)) || bool_decide (is_Some (members v part)).

(** Following a list of segments, each present in the structured value
    reached so far. *)
Fixpoint resolve (members : value -> string -> option value)
    (parts : list string) (v : value) : option value :=
  match parts with
  | [] => Some v
  | p :: ps =>
      if structured v && present members p v
      then resolve members ps (get_member members p v)
      else None
  end.

(** The members of the values an object literal denotes: those of
    [Object.prototype], of each of which the model keeps only that it is
    there. *)
Definition literal_members (v : value) (part : string) : option value :=
  match v with
  | VObj _ => if inherited part then Some (VFun 0) else None
  | _ => None
  end.



(** A container holding an object, for [getPath]. *)
Definition world_of_object : World :=
  fnstate (VObj [("x", VNum 1); ("inner", VObj [("y", VStr "deep")])]) NoMapKey.



(** Whether [v] is the state function of container [c] itself. *)
Definition is_self (c : Ctx) (v : value) : bool :=
  match v with
  | VState sid _ => Nat.eqb sid (state_id c)
  | _ => false
  end.

Definition is_user (o : Observer) : bool :=
  match obs_fn o with UserFn _ => true | ReconcileFn => false end.

(** The event each observer of a registry leaves when notified. *)
Definition notifications (newState oldState : value) (l : list Observer) : list event :=
  (fun o => Notified (obs_id o) newState oldState) <$> l.


(** The world a call leaves, whether it returned or threw. *)
Definition world_after {A} (o : outcome World A) (w : World) : World :=
  match o with
  | Ret _ w' => w'
  | Raise _ w' => w'
  | OutOfFuel => w
  end.






(** A container with two caller observers, labelled 10 and 11; and
    observers of which the one labelled 10 calls the closure of the first
    subscription when it is notified. *)
Definition world_two_observers : World :=
  world_after (doSubscribe (UserFn 11) (world_after (doSubscribe (UserFn 10)
    (fnstate (VNum 0) NoMapKey)) (fnstate (VNum 0) NoMapKey))) (fnstate (VNum 0) NoMapKey).

Definition leaves_when_called (l : label) (_ _ : value) : M World unit :=
  if Nat.eqb l 10 then unsubscribe 0 else ret tt.


(** *** Bound collections *)

(** The key [keyMapper] gives an item state, and the property name the key
    is used under. *)
Definition raw_key (mk : MapKey) (v : value) : value := keyMapper mk (state_value v).
Definition item_key (mk : MapKey) (v : value) : string := to_property_key (raw_key mk v).
Definition raw_keys (mk : MapKey) (items : list value) : list value := raw_key mk <$> items.
Definition keys_of (mk : MapKey) (items : list value) : list string := item_key mk <$> items.

(** Names that are none of [Object.prototype]. *)
Definition plain (ks : list string) : Prop := Forall (fun k => inherited k = false) ks.

(** The [keys] object after the key loop ran over [items] from index [i]. *)
Fixpoint index_keys (mk : MapKey) (items : list value) (i : nat)
    (keys : gmap string nat) : gmap string nat :=
  match items with
  | [] => keys
  | v :: rest => index_keys mk rest (S i) (<[item_key mk v := i]> keys)
  end.

(** The items after the key loop wrapped those that were no states, the
    first new state being number [n]; and the number the next would have. *)
Fixpoint wrapped (n : nat) (items : list value) : list value :=
  match items with
  | [] => []
  | v :: rest =>
      if isFnState v then v :: wrapped n rest else VState n v :: wrapped (S n) rest
  end.

Fixpoint next_after (n : nat) (items : list value) : nat :=
  match items with
  | [] => n
  | v :: rest => if isFnState v then next_after n rest else next_after (S n) rest
  end.

(** The parent of a pass holds only units of the pass, each under the
    name of its own key tag, and no node twice; the names are those of
    keys that passed the key loop. *)
Record managed (p : Pass) : Prop := mkManaged {
  managed_nodup : NoDup (nid <$> children p);
  managed_children : forall n, n ∈ children p ->
                               bound p !! to_property_key (key n) = Some n;
  managed_tags : forall k n, bound p !! k = Some n ->
                             to_property_key (key n) = k /\ nid n < fresh_id p;
  managed_inj : forall k1 k2 n1 n2,
      bound p !! k1 = Some n1 -> bound p !! k2 = Some n2 ->
      nid n1 = nid n2 -> k1 = k2;
  managed_plain : forall k, is_Some (bound p !! k) -> inherited k = false
}.

(** The children of the parent are the units of the keys [ks], in the
    order of [ks], and no other unit is kept. *)
Record synced (ks : list string) (p : Pass) : Prop := mkSynced {
  synced_keys : NoDup ks;
  synced_managed : managed p;
  synced_children : Forall2 (fun k n => bound p !! k = Some n) ks (children p);
  synced_dom : forall k, is_Some (bound p !! k) -> k ∈ ks
}.

(** The same, decided. *)
Definition node_eqb (a b : Node) : bool :=
  Nat.eqb (nid a) (nid b) && strict_eq (key a) (key b)
  && Bool.eqb (insertAdjacentElement a) (insertAdjacentElement b).

Definition is_managed (bc : BindContext) (next : nat) : bool :=
  bool_decide (NoDup (nid <$> parent bc))
  && forallb (fun n =>
                match boundElementByKey bc !! to_property_key (key n) with
                | Some m => node_eqb m n
                | None => false
                end) (parent bc)
  && forallb (fun kn => String.eqb (to_property_key (key kn.2)) kn.1 && (nid kn.2 <? next))
             (map_to_list (boundElementByKey bc))
  && bool_decide (NoDup (nid <$> (snd <$> map_to_list (boundElementByKey bc))))
  && forallb (fun kn => negb (inherited kn.1)) (map_to_list (boundElementByKey bc)).

Definition is_synced (ks : list string) (bc : BindContext) (next : nat) : bool :=
  is_managed bc next
  && bool_decide (NoDup ks)
  && Nat.eqb (length ks) (length (parent bc))
  && forallb (fun kn =>
                match boundElementByKey bc !! kn.1 with
                | Some m => node_eqb m kn.2
                | None => false
                end) (zip ks (parent bc))
  && forallb (fun kn => bool_decide (kn.1 ∈ ks)) (map_to_list (boundElementByKey bc)).

(** Every bind context of the container is managed. *)
Definition well_managed (w : World) : bool :=
  forallb (fun bc => is_managed bc (next_node w)) (bindContexts (ctx w)).

(** The container holds an array of item states with distinct keys, and
    every bound parent shows it; the pass over an empty array has left no
    selection callback. *)
Definition in_sync (w : World) : bool :=
  isArray (currentValue (ctx w))
  && forallb isFnState (array_items (currentValue (ctx w)))
  && forallb (fun bc =>
                is_synced (keys_of (mapKey (ctx w)) (array_items (currentValue (ctx w))))
                          bc (next_node w))
             (bindContexts (ctx w))
  && match array_items (currentValue (ctx w)), bindContexts (ctx w) with
     | [], _ :: _ => bool_decide (selectObservers (ctx w) = ∅)
     | _, _ => true
     end.

(** The DOM operations among the events of a trace. *)
Definition dom_ops (t : list event) : list event :=
  List.filter (fun e => match e with Dom _ _ => true | _ => false end) t.

(** The units rendered in a trace. *)
Definition renders (t : list event) : list event :=
  List.filter (fun e => match e with Rendered _ _ => true | _ => false end) t.

(** The world the key loop leaves once it went over [items], which sit
    between [pre] and [post] in the array: the items wrapped, the state
    counter advanced. *)
Definition after_keys (pre items post : list value) (w : World) : World :=
  set_next_state (next_after (next_state w) items)
    (set_ctx (set_currentValue (VArr (pre ++ wrapped (next_state w) items ++ post)) (ctx w)) w).

(** Two items of an array resolve to the same key. *)
Definition duplicate_keys (mk : MapKey) (items : list value) : Prop :=
  exists i j a b, i < j /\ items !! i = Some a /\ items !! j = Some b /\
                  item_key mk a = item_key mk b.

(** What [in_sync] decides. *)
Record in_sync_facts (w : World) : Prop := mkInSync {
  sync_items : currentValue (ctx w) = VArr (array_items (currentValue (ctx w)));
  sync_states : forallb isFnState (array_items (currentValue (ctx w))) = true;
  sync_contexts : forall j bc,
      bindContexts (ctx w) !! j = Some bc ->
      synced (keys_of (mapKey (ctx w)) (array_items (currentValue (ctx w)))) (pass_of w bc);
  sync_select : array_items (currentValue (ctx w)) = [] ->
                bindContexts (ctx w) <> [] -> selectObservers (ctx w) = ∅
}.

(** The worlds met while a value [VArr items] with a duplicate key is being
    dispatched from the world [good]: the bad value is stored, and more of
    the trace and of the state counter is used up.  And what the failed
    call leaves. *)
Definition armed (good : World) (items : list value) (w : World) : Prop :=
  ctx w = set_currentValue (VArr items) (ctx good) /\
  next_node w = next_node good /\
  dom_ops (trace w) = dom_ops (trace good).

Definition restored (good w : World) : Prop :=
  ctx w = ctx good /\ next_node w = next_node good /\
  dom_ops (trace w) = dom_ops (trace good).

(** Items with an [id], and the key function that reads it. *)
Definition item (id : string) : value := VObj [("id", VStr id)].
Definition by_id : MapKey := UserMapKey (get_property "id").

(** A container bound to the items [a], [b], [c] through an empty parent,
    and the same with a caller observer subscribed after the binding. *)
Definition world_abc : World :=
  let w := fnstate (VArr [item "a"; item "b"; item "c"]) by_id in
  world_after (doBindChildren inert_observer 5 (Some []) (fun _ => true) w) w.

Definition world_abc_watched : World :=
  world_after (doSubscribe (UserFn 7) world_abc) world_abc.

(** A value [Array.prototype.map] can ask [isFnState] of. *)
Definition has_properties (v : value) : bool :=
  match v with VUndef | VNull => false | _ => true end.

(** A container of two structured items, with no key function. *)
Definition world_without_keys : World :=
  fnstate (VArr [VObj [("name", VStr "x")]; VObj [("name", VStr "y")]]) NoMapKey.

(** What a pass may add to the trace: operations on the children, and
    the rendering of a unit for an item of [its] (a key with its item
    state) whose key had no unit in [p0]. *)
Definition pass_event (its : list (value * value)) (p0 : Pass) (e : event) : Prop :=
  match e with
  | Rendered _ valueState =>
      exists k, (k, valueState) ∈ its /\ bound p0 !! to_property_key k = None
  | Dom _ _ => True
  | _ => False
  end.

(** A placement pass under way from [p0]: the units of the keys [placed]
    close the list of children, and no unit of a key of [ks] was dropped. *)
Record placing (ks : list string) (its : list (value * value)) (p0 : Pass)
    (placed : list string) (units : list Node) (p : Pass) : Prop := mkPlacing {
  placing_managed : managed p;
  placing_children : exists L, children p = L ++ units;
  placing_units : Forall2 (fun k n => bound p !! k = Some n) placed units;
  placing_reuse : forall k n, k ∈ ks -> bound p0 !! k = Some n -> bound p !! k = Some n;
  placing_fresh : fresh_id p0 <= fresh_id p;
  placing_events : exists evs, events p = events p0 ++ evs /\ Forall (pass_event its p0) evs
}.

(** What a reconciliation started in world [w0], for an array with keys
    [ks], may add to the trace: operations on children, and the rendering of
    a unit for an item state whose key, one of [ks], had no unit in some
    bind context of [w0]. *)
Definition reconcile_event (w0 : World) (ks : list string) (e : event) : Prop :=
  match e with
  | Rendered _ valueState =>
      item_key (mapKey (ctx w0)) valueState ∈ ks /\
      exists j bc, bindContexts (ctx w0) !! j = Some bc /\
                   boundElementByKey bc !! item_key (mapKey (ctx w0)) valueState = None
  | Dom _ _ => True
  | _ => False
  end.

(** What a reconciliation leaves alone. *)
Definition same_registry (w0 w : World) : Prop :=
  state_id (ctx w) = state_id (ctx w0) /\
  observers (ctx w) = observers (ctx w0) /\
  nextId (ctx w) = nextId (ctx w0) /\
  mapKey (ctx w) = mapKey (ctx w0) /\
  selected (ctx w) = selected (ctx w0) /\
  tokens w = tokens w0 /\
  rejected w = rejected w0.

(** A reconciliation under way from [w0], for an array with keys [ks]:
    the bind contexts before index [a] were arranged. *)
Record reconciling (w0 : World) (ks : list string) (a : nat) (w : World) : Prop :=
  mkReconciling {
  rec_registry : same_registry w0 w;
  rec_length : length (bindContexts (ctx w)) = length (bindContexts (ctx w0));
  rec_value : exists items,
      currentValue (ctx w) = VArr items /\
      keys_of (mapKey (ctx w0)) items = ks /\
      (0 < a -> forallb isFnState items = true /\
                (items = [] -> selectObservers (ctx w) = ∅));
  rec_done : forall j bc, j < a -> bindContexts (ctx w) !! j = Some bc ->
                          synced ks (pass_of w bc);
  rec_todo : forall j bc, a <= j -> bindContexts (ctx w0) !! j = Some bc ->
                          bindContexts (ctx w) !! j = Some bc /\ managed (pass_of w bc);
  rec_reuse : forall j bc bc' k n,
      bindContexts (ctx w0) !! j = Some bc -> bindContexts (ctx w) !! j = Some bc' ->
      k ∈ ks -> boundElementByKey bc !! k = Some n ->
      boundElementByKey bc' !! k = Some n;
  rec_events : exists evs, trace w = trace w0 ++ evs /\ Forall (reconcile_event w0 ks) evs;
  rec_nodes : next_node w0 <= next_node w
}.

(** The world in which the value was replaced without telling anyone. *)
Definition with_value (v : value) (w : World) : World :=
  set_ctx (set_currentValue v (ctx w)) w.



(** What a call of [set] with an array of keys [ks], made in world [w0],
    may add to the trace: notifications, and what the reconciliation adds. *)
Definition set_event (w0 : World) (ks : list string) (e : event) : Prop :=
  match e with
  | Notified _ _ _ => True
  | _ => reconcile_event w0 ks e
  end.

(** The world [w] that [set], called in [w0] with an array of keys [ks],
    leaves behind: every parent shows the array, and a key that had a unit
    in a bind context of [w0] has the same unit still. *)
Record reconciled (w0 : World) (ks : list string) (w : World) : Prop := mkReconciled {
  red_registry : same_registry w0 w;
  red_sync : in_sync_facts w;
  red_keys : keys_of (mapKey (ctx w0)) (array_items (currentValue (ctx w))) = ks;
  red_length : length (bindContexts (ctx w)) = length (bindContexts (ctx w0));
  red_reuse : forall j bc bc' k n,
      bindContexts (ctx w0) !! j = Some bc -> bindContexts (ctx w) !! j = Some bc' ->
      k ∈ ks -> boundElementByKey bc !! k = Some n ->
      boundElementByKey bc' !! k = Some n;
  red_events : exists evs, trace w = trace w0 ++ evs /\ Forall (set_event w0 ks) evs
}.

(** *** What a bound parent shows *)



(** The key function in force once [doBindChildren] has looked at
    [ctx.mapKey]. *)
Definition installed (mk : MapKey) : MapKey :=
  if is_function mk then mk else IndexMapKey.


(** An outcome that is a result or an error and leaves the world [w]. *)
Definition leaves {A} (w : World) (o : outcome World A) : Prop :=
  match o with
  | Ret _ w' => w' = w
  | Raise _ w' => w' = w
  | OutOfFuel => False
  end.


(** ** Namespaces in tag and attribute names *)

(** Strings as [h] and [setAttribute] cut them up. *)
Fixpoint string_drop (n : nat) (s : string) : string :=
  match n, s with
  | S n', String _ s' => string_drop n' s'
  | _, _ => s
  end.

Fixpoint string_take (n : nat) (s : string) : string :=
  match n, s with
  | S n', String a s' => String a (string_take n' s')
  | _, _ => EmptyString
  end.

(** An index given to [slice]: counted from the end when negative, and
    kept within the string. *)
Definition slice_index (len i : Z) : Z :=
  if (i <? 0)%Z then Z.max (len + i) 0 else Z.min i len.

(** [s.slice(start, end)]; [s.slice(start)] when [stop] is [None]. *)
Definition slice (s : string) (start : Z) (stop : option Z) : string :=
  let len := Z.of_nat (String.length s) in
  let from := slice_index len start in
  let to := match stop with Some e => slice_index len e | None => len end in
  string_take (Z.to_nat (to - from)) (string_drop (Z.to_nat from) s).

(** [s.lastIndexOf(c)] for a one-character [c]: the index of its last
    occurrence, [-1] when there is none. *)
Fixpoint lastIndexOf_from (c : ascii) (s : string) (i found : Z) : Z :=
  match s with
  | EmptyString => found
  | String a s' => lastIndexOf_from c s' (i + 1)%Z (if Ascii.eqb a c then i else found)
  end.

Definition lastIndexOf (c : ascii) (s : string) : Z := lastIndexOf_from c s 0%Z (-1)%Z.

(** Whether the character occurs in the string. *)
Fixpoint occurs (c : ascii) (s : string) : bool :=
  match s with
  | EmptyString => false
  | String a s' => Ascii.eqb a c || occurs c s'
  end.

Module Names.

(** The object [{ ns, val }] *)
Record Split : Type := mkSplit { ns : string; val : string }.

(** [hasNs(val)] *)
Definition hasNs (val : string) : Z := lastIndexOf ":" val.

(** [splitNs(val, i)] *)
Definition splitNs (val : string) (i : Z) : Split :=
  mkSplit (slice val 0%Z (Some i)) (slice val (i + 1)%Z None).

End Names.


(** ** Attribute objects *)

Section Attrs.

Context (members : value -> string -> option value).



End Attrs.


(** ** The binding of one element *)

(** The context [elCtx = { current }] of a binding made without an
    update function, with the children of the node [current] is a child
    of (none while it is detached). *)
Record ElCtx : Type := mkElCtx { current : Node; siblings : list Node }.

(** The closure [updateReplacer(ctx, element, elCtx)], called when
    [renderNode(evaluateElement(element, ctx.currentValue))] gives the node
    [rendered].  A node has no property [current], so the assignment to
    [rendered.current.key] throws when it is reached.  [ctx.parentCtx] is
    read from the record [ctx], on which nothing sets it ([arrangeElements]
    sets [parentCtx] on the state function), so the loop over the bind
    contexts of the parent is not entered.  The executor of the promise
    runs at once. *)
Definition updateReplacer (rendered : Node) : M ElCtx unit :=
  fun s =>
    if negb (strict_eq (key (current s)) VUndef)
    then Raise (TypeError "Cannot set properties of undefined (setting 'key')") s
    else Ret tt (mkElCtx rendered
                   (if is_child (current s) (siblings s)
                    then replaceWith (current s) rendered (siblings s)
                    else siblings s)).

(** ** [assign] *)


Section Assign.

(** [Object.assign(target, source)]: the content of the result, or what
    it throws. *)
Context (behave : label -> value -> value -> M World unit)
        (Object_assign : value -> value -> value + exn).


End Assign.



(** ** The cost of a pass *)



(** * Properties *)

(** ** The monad *)

Lemma bind_Ret {S A B} (m : M S A) (k : A -> M S B) s a s' :
  m s = Ret a s' -> bind m k s = k a s'.
Proof. unfold bind. intros ->. reflexivity. Qed.

Lemma bind_Raise {S A B} (m : M S A) (k : A -> M S B) s e s' :
  m s = Raise e s' -> bind m k s = Raise e s'.
Proof. unfold bind. intros ->. reflexivity. Qed.

Lemma bind_inv_Ret {S A B} (m : M S A) (k : A -> M S B) s b s2 :
  bind m k s = Ret b s2 -> exists a s1, m s = Ret a s1 /\ k a s1 = Ret b s2.
Proof. unfold bind. destruct (m s) as [a s1|e s1|]; intros H; try discriminate; eauto. Qed.

Lemma set_trace_id w : set_trace (trace w) w = w.
Proof. destruct w; reflexivity. Qed.

Lemma set_ctx_id w : set_ctx (ctx w) w = w.
Proof. destruct w; reflexivity. Qed.

Lemma set_trace_set_trace t t' w : set_trace t (set_trace t' w) = set_trace t w.
Proof. reflexivity. Qed.

(** ** Object literals used as maps *)

Lemma defined_in_own {A} (obj : gmap string A) name :
  is_Some (obj !! name) -> defined_in obj name = true.
Proof. intros [x Hx]. unfold defined_in. rewrite Hx. reflexivity. Qed.

Lemma defined_in_false {A} (obj : gmap string A) name :
  defined_in obj name = false -> obj !! name = None /\ inherited name = false.
Proof. unfold defined_in. destruct (obj !! name); [discriminate|auto]. Qed.

Lemma defined_in_none {A} (obj : gmap string A) name :
  inherited name = false -> obj !! name = None -> defined_in obj name = false.
Proof. intros Hn Hx. unfold defined_in. rewrite Hx. exact Hn. Qed.

Lemma defined_in_inherited {A} (obj : gmap string A) name :
  inherited name = true -> defined_in obj name = true.
Proof. intros Hn. unfold defined_in. rewrite Hn. destruct (obj !! name); reflexivity. Qed.

(** ** Values *)

Lemma strict_eq_eq : forall a b, strict_eq a b = true -> a = b.
Proof.
  fix IH 1. intros a b; destruct a, b; simpl; try discriminate; intros H; try reflexivity.
  - apply Bool.eqb_prop in H. congruence.
  - apply Z.eqb_eq in H. congruence.
  - apply String.eqb_eq in H. congruence.
  - f_equal. revert fields0 H.
    induction fields as [|[k x] xs IHxs]; intros [|[k' y] ys] H;
      try discriminate; try reflexivity.
    apply andb_prop in H as [H H3]. apply andb_prop in H as [H1 H2].
    apply String.eqb_eq in H1. apply IH in H2. apply IHxs in H3. congruence.
  - f_equal. revert items0 H.
    induction items as [|x xs IHxs]; intros [|y ys] H; try discriminate; try reflexivity.
    apply andb_prop in H as [H1 H2]. apply IH in H1. apply IHxs in H2. congruence.
  - apply Nat.eqb_eq in H. congruence.
  - apply andb_prop in H as [H1 H2]. apply Nat.eqb_eq in H1. apply IH in H2. congruence.
Qed.

Lemma strict_eq_refl : forall a, strict_eq a a = true.
Proof.
  fix IH 1. intros a; destruct a; simpl; try reflexivity.
  - apply Bool.eqb_reflx.
  - apply Z.eqb_refl.
  - apply String.eqb_refl.
  - induction fields as [|[k x] xs IHxs]; [reflexivity|].
    rewrite String.eqb_refl, IH, IHxs. reflexivity.
  - induction items as [|x xs IHxs]; [reflexivity|]. rewrite IH, IHxs. reflexivity.
  - apply Nat.eqb_refl.
  - rewrite Nat.eqb_refl, IH. reflexivity.
Qed.

(** ** Reading the container *)

(** C10. Calling the state function with no argument, or with the state
    function itself as its only argument, returns the current value and
    leaves the whole world as it was: nothing is stored and no observer
    is called. *)
Theorem state_read_is_pure behave fuel w cur :
  state behave (S fuel) [] w = Ret (currentValue (ctx w)) w /\
  state behave (S fuel) [VState (state_id (ctx w)) cur] w = Ret (currentValue (ctx w)) w.
Proof.
  split; simpl; unfold state_body, bind, gets, ret; simpl.
  - reflexivity.
  - rewrite Nat.eqb_refl. reflexivity.
Qed.

(** ** [getPath] *)

Section HostFacts.

Context (members : value -> string -> option value).

Lemma has_property_structured part v w :
  structured v = true -> has_property members part v w = Ret (present members part v) w.
Proof. destruct v; try discriminate; intros _; reflexivity. Qed.

Lemma reduce_resolve parts : forall v r w,
  resolve members parts v = Some r ->
  reduce (fun curr part =>
            let! present := has_property members part curr in
            if present then ret (get_member members part curr) else ret VUndef)
         parts v w
  = Ret r w.
Proof.
  induction parts as [|p ps IH]; intros v r w H; simpl in *.
  - injection H as ->. reflexivity.
  - destruct (structured v) eqn:Hs; simpl in H; [|discriminate].
    destruct (present members p v) eqn:Hp; [|discriminate].
    unfold bind at 1. unfold bind at 1.
    rewrite (has_property_structured _ _ _ Hs), Hp. simpl. unfold ret at 1.
    apply IH, H.
Qed.

End HostFacts.

Lemma reduce_app {S A B} (f : A -> B -> M S A) xs ys init s a s' :
  reduce f xs init s = Ret a s' ->
  reduce f (xs ++ ys) init s = reduce f ys a s'.
Proof.
  revert init s. induction xs as [|x xs IH]; intros init s H; simpl in *.
  - unfold ret in H. injection H as -> ->. reflexivity.
  - apply bind_inv_Ret in H as (b & s1 & H1 & H2).
    rewrite (bind_Ret _ _ _ _ _ H1). eauto.
Qed.

(** C7, as the code has it. [getPath] fails with "Invalid path" when the
    path is not a string, and with "Value is not an object" when [typeof]
    of the current value is not ['object'].  Otherwise, when every segment
    is present it returns the value reached, and when the last segment is
    the only absent one it returns [undefined].  (A segment is present in
    a value when [in] finds it: as an own property or as a member
    inherited from a prototype.) *)
Theorem getPath_contract members w :
  (forall path, typeof path <> TString -> getPath members path w = Raise InvalidPath w) /\
  (forall p, typeof (currentValue (ctx w)) <> TObject ->
             getPath members (VStr p) w = Raise NotAnObject w) /\
  (forall p v, typeof (currentValue (ctx w)) = TObject ->
               resolve members (split_dot p) (currentValue (ctx w)) = Some v ->
               getPath members (VStr p) w = Ret v w) /\
  (forall p init final obj,
      typeof (currentValue (ctx w)) = TObject ->
      split_dot p = init ++ [final] ->
      resolve members init (currentValue (ctx w)) = Some obj ->
      structured obj = true -> present members final obj = false ->
      getPath members (VStr p) w = Ret VUndef w).
Proof.
  repeat split.
  - intros path H. destruct path; simpl in *; try reflexivity. congruence.
  - intros p H. simpl. unfold bind, gets.
    destruct (typeof (currentValue (ctx w))); simpl; try reflexivity. congruence.
  - intros p v Ht Hr. simpl. unfold bind at 1, gets. rewrite Ht. simpl.
    apply reduce_resolve, Hr.
  - intros p init final obj Ht Hsplit Hr Hs Hp. simpl. unfold bind at 1, gets.
    rewrite Ht, Hsplit. simpl.
    rewrite (reduce_app _ _ _ _ _ _ _ (reduce_resolve members _ _ _ w Hr)). simpl.
    unfold bind. rewrite (has_property_structured _ _ _ _ Hs), Hp. reflexivity.
Qed.

Lemma getPath_contract_witness :
  getPath literal_members (VNum 3) world_of_object = Raise InvalidPath world_of_object /\
  getPath literal_members (VStr "x") (fnstate (VNum 5) NoMapKey)
  = Raise NotAnObject (fnstate (VNum 5) NoMapKey) /\
  getPath literal_members (VStr "inner.y") world_of_object
  = Ret (VStr "deep") world_of_object /\
  getPath literal_members (VStr "inner.z") world_of_object = Ret VUndef world_of_object.
Proof.
  split; [|split; [|split]].
  - apply (proj1 (getPath_contract literal_members world_of_object)). discriminate.
  - apply (proj1 (proj2 (getPath_contract literal_members (fnstate (VNum 5) NoMapKey)))).
    discriminate.
  - apply (proj1 (proj2 (proj2 (getPath_contract literal_members world_of_object))));
      reflexivity.
  - apply (proj2 (proj2 (proj2 (getPath_contract literal_members world_of_object)))
             "inner.z" ["inner"] "z" (VObj [("y", VStr "deep")])); reflexivity.
Defined.

(** C7 as stated fails for the empty string, which is a string and so
    passes the only check made on the path: the read then returns
    [undefined]. *)
Lemma getPath_empty_path_counterexample :
  getPath literal_members (VStr "") world_of_object = Ret VUndef world_of_object /\
  getPath literal_members (VStr "") world_of_object <> Raise InvalidPath world_of_object.
Proof. split; [reflexivity | discriminate]. Qed.

(** An absent segment that is not the last makes the next step apply [in]
    to [undefined], which throws. *)
Lemma getPath_absent_inner_segment_throws :
  exists msg, getPath literal_members (VStr "a.b") world_of_object
              = Raise (TypeError msg) world_of_object.
Proof. eexists. reflexivity. Qed.

(** [null] has type ['object'] and passes the check on the value. *)
Lemma getPath_null_throws :
  exists msg, getPath literal_members (VStr "a") (fnstate VNull NoMapKey)
              = Raise (TypeError msg) (fnstate VNull NoMapKey).
Proof. eexists. reflexivity. Qed.

(** A name that only the prototype holds is present all the same: the
    read gives the inherited member, not [undefined]. *)
Lemma getPath_inherited_member :
  getPath literal_members (VStr "inner.toString") world_of_object
  = Ret (VFun 0) world_of_object.
Proof. reflexivity. Qed.

(** ** Selection *)



Lemma fire_select_inherited on_select k w :
  selectObservers (ctx w) !! to_property_key k = None ->
  inherited (to_property_key k) = true ->
  exists msg, fire_select on_select k w = Raise (TypeError msg) w.
Proof.
  intros Hown Hk. unfold fire_select, bind, gets. rewrite Hown, Hk.
  eexists. reflexivity.
Qed.




(** ** The observer registry *)



Lemma state_write_unfold behave fuel v w :
  is_self (ctx w) v = false ->
  state behave (S fuel) [v] w
  = (notify behave (state behave fuel) fuel 0 v (currentValue (ctx w)) >> ret v)
      (set_ctx (set_currentValue v (ctx w)) w).
Proof.
  intros Hs. simpl. unfold state_body. unfold bind at 1, gets at 1.
  assert (Hr : match [v] with
               | [] => true
               | [VState sid _] => Nat.eqb sid (state_id (ctx w))
               | _ => false
               end = false).
  { destruct v; try reflexivity. exact Hs. }
  rewrite Hr. reflexivity.
Qed.



(** An observer that unsubscribes itself while it is notified shortens
    the live array under the iterator: the observer subscribed next is not
    called in that round. *)
Lemma set_with_unsubscribing_observer_skips_next :
  (obs_id <$> observers (ctx world_two_observers)) = [0; 1] /\
  exists w',
    state leaves_when_called 4 [VNum 1] world_two_observers = Ret (VNum 1) w' /\
    trace w' = [Notified 0 (VNum 1) (VNum 0)].
Proof. split; [reflexivity|]. eexists. split; vm_compute; reflexivity. Qed.

(** *** Subscriptions *)

















(** ** Children lists *)

Lemma same_node_refl n : same_node n n = true.
Proof. apply Nat.eqb_refl. Qed.

Lemma same_node_true a b : same_node a b = true <-> nid a = nid b.
Proof. apply Nat.eqb_eq. Qed.

Lemma same_node_false a b : same_node a b = false <-> nid a <> nid b.
Proof. apply Nat.eqb_neq. Qed.

Lemma detach_app n l1 l2 : detach n (l1 ++ l2) = detach n l1 ++ detach n l2.
Proof. apply List.filter_app. Qed.

Lemma detach_absent n cs : nid n ∉ nid <$> cs -> detach n cs = cs.
Proof.
  induction cs as [|c cs IH]; intros H; [reflexivity|].
  rewrite fmap_cons in H. apply not_elem_of_cons in H as [H1 H2].
  unfold detach in *. simpl.
  destruct (same_node c n) eqn:E.
  - apply same_node_true in E. congruence.
  - simpl. f_equal. apply IH, H2.
Qed.

Lemma elem_of_detach x n cs : x ∈ detach n cs <-> x ∈ cs /\ nid x <> nid n.
Proof.
  unfold detach. rewrite list_elem_of_In, List.filter_In, <- list_elem_of_In.
  rewrite negb_true_iff, same_node_false. reflexivity.
Qed.

Lemma detach_sublist n cs : detach n cs `sublist_of` cs.
Proof.
  induction cs as [|c cs IH]; [constructor|].
  unfold detach in *. simpl. destruct (negb (same_node c n)); by constructor.
Qed.

Lemma detach_here n L R :
  NoDup (nid <$> (L ++ n :: R)) -> detach n (L ++ n :: R) = L ++ R.
Proof.
  intros Hnd. rewrite fmap_app, fmap_cons in Hnd.
  apply NoDup_app in Hnd as (_ & Hdisj & Hnd). apply NoDup_cons in Hnd as [HR _].
  rewrite detach_app. unfold detach at 2. simpl. rewrite same_node_refl. simpl.
  fold (detach n R). rewrite !detach_absent; auto.
  intros H. apply (Hdisj _ H). left.
Qed.

Lemma previousSibling_absent u cs :
  nid u ∉ nid <$> tail cs -> previousSibling u cs = None.
Proof.
  induction cs as [|a cs IH]; intros H; [reflexivity|].
  destruct cs as [|b cs]; [reflexivity|]. simpl in *.
  apply not_elem_of_cons in H as [H1 H2].
  destruct (same_node b u) eqn:E.
  - apply same_node_true in E. congruence.
  - apply IH. exact H2.
Qed.

Lemma previousSibling_here u L U :
  nid u ∉ nid <$> L -> nid u ∉ nid <$> U ->
  previousSibling u (L ++ u :: U) = last L.
Proof.
  intros HL HU. induction L as [|a L IH].
  - apply previousSibling_absent. exact HU.
  - rewrite fmap_cons in HL. apply not_elem_of_cons in HL as [Ha HL].
    destruct L as [|b L].
    + simpl. rewrite same_node_refl. reflexivity.
    + specialize (IH HL). simpl in *.
      apply not_elem_of_cons in HL as [Hb HL].
      destruct (same_node b u) eqn:E.
      * apply same_node_true in E. congruence.
      * exact IH.
Qed.

Lemma put_before_here n ref L U :
  nid ref ∉ nid <$> L -> put_before n ref (L ++ ref :: U) = L ++ n :: ref :: U.
Proof.
  induction L as [|a L IH]; intros H; simpl.
  - rewrite same_node_refl. reflexivity.
  - rewrite fmap_cons in H. apply not_elem_of_cons in H as [Ha HL].
    destruct (same_node a ref) eqn:E.
    + apply same_node_true in E. congruence.
    + f_equal. apply IH, HL.
Qed.

Lemma exchange_here old new L R :
  nid old ∉ nid <$> L -> exchange old new (L ++ old :: R) = L ++ new :: R.
Proof.
  induction L as [|a L IH]; intros H; simpl.
  - rewrite same_node_refl. reflexivity.
  - rewrite fmap_cons in H. apply not_elem_of_cons in H as [Ha HL].
    destruct (same_node a old) eqn:E.
    + apply same_node_true in E. congruence.
    + f_equal. apply IH, HL.
Qed.

Lemma is_child_elem n cs : n ∈ cs -> is_child n cs = true.
Proof.
  intros H. unfold is_child. apply existsb_exists. exists n.
  split; [apply list_elem_of_In, H | apply same_node_refl].
Qed.

Lemma last_snoc_node (L : list Node) x : last (L ++ [x]) = Some x.
Proof. apply last_snoc. Qed.

(** ** A pass over a parent that is in sync *)

Lemma place_in_place keys render j prev k valueState n p :
  bound p !! to_property_key k = Some n ->
  match prev with
  | None => lastChild (children p) = Some n
  | Some u => previousSibling u (children p) = Some n
  end ->
  place keys render j prev (k, valueState) p = Ret (Some n) p.
Proof.
  intros Hb Hpos. unfold place. unfold bind at 1. unfold current_unit. rewrite Hb.
  unfold bind at 1. unfold place_in_parent.
  destruct prev as [u|].
  - unfold bind at 1, gets at 1. rewrite Hpos.
    rewrite strict_eq_refl. reflexivity.
  - unfold bind at 1, gets at 1. rewrite Hpos.
    rewrite strict_eq_refl. reflexivity.
Qed.

Lemma place_all_cons keys render j prev it rest :
  place_all keys render j prev (it :: rest)
  = (let! prev' := place keys render j prev it in place_all keys render j prev' rest).
Proof. reflexivity. Qed.

Lemma place_all_in_place keys render j : forall (todo : list (value * value)) L U p,
  children p = L ++ U ->
  NoDup (nid <$> children p) ->
  Forall2 (fun it n => bound p !! to_property_key it.1 = Some n) (rev todo) L ->
  place_all keys render j (head U) todo p = Ret tt p.
Proof.
  induction todo as [|[k vs] todo IH]; intros L U p Hcs Hnd Hall; [reflexivity|].
  simpl in Hall. apply Forall2_app_inv_l in Hall as (L' & Ln & HL' & Hn & ->).
  apply Forall2_cons_inv_l in Hn as (n & Ln' & Hn & Hnil & ->).
  apply Forall2_nil_inv_l in Hnil as ->. simpl in Hn.
  rewrite place_all_cons. unfold bind at 1.
  rewrite (place_in_place keys render j (head U) k vs n p Hn).
  - apply (IH L' (n :: U)); auto. rewrite Hcs, <- app_assoc. reflexivity.
  - rewrite Hcs. destruct U as [|u U]; simpl.
    + rewrite app_nil_r. apply last_snoc.
    + rewrite Hcs, <- app_assoc in Hnd. simpl in Hnd.
      rewrite <- app_assoc. simpl.
      replace (L' ++ n :: u :: U) with ((L' ++ [n]) ++ u :: U)
        by (rewrite <- app_assoc; reflexivity).
      replace (L' ++ n :: u :: U) with ((L' ++ [n]) ++ u :: U) in Hnd
        by (rewrite <- app_assoc; reflexivity).
      rewrite fmap_app, fmap_cons in Hnd.
      apply NoDup_app in Hnd as (_ & Hdisj & Hnd). apply NoDup_cons in Hnd as [HU _].
      rewrite previousSibling_here; auto.
      * apply last_snoc.
      * intros H. apply (Hdisj _ H). left.
Qed.

Lemma filter_none {A} (P : A -> Prop) `{!forall x, Decision (P x)} (l : list A) :
  Forall (fun x => ~ P x) l -> filter P l = [].
Proof.
  induction 1 as [|x l Hx Hl IH]; [reflexivity|].
  rewrite filter_cons_False by exact Hx. exact IH.
Qed.

Lemma catch_strays_none keys j p :
  (forall k, is_Some (bound p !! k) -> is_Some (keys !! k)) ->
  catch_strays keys j p = Ret tt p.
Proof.
  intros H. unfold catch_strays.
  replace (filter (fun kn : string * Node => defined_in keys kn.1 = false)
             (map_to_list (bound p)))
    with (@nil (string * Node)); [reflexivity|].
  symmetry. apply filter_none.
  rewrite Forall_forall. intros [k n] Hkn Hnone. simpl in Hnone.
  apply elem_of_map_to_list in Hkn.
  rewrite defined_in_own in Hnone by eauto. discriminate.
Qed.

(** ** The decided notions *)

Lemma node_eqb_eq a b : node_eqb a b = true -> a = b.
Proof.
  unfold node_eqb. intros H.
  apply andb_prop in H as [H H3]. apply andb_prop in H as [H1 H2].
  apply Nat.eqb_eq in H1. apply strict_eq_eq in H2. apply Bool.eqb_prop in H3.
  destruct a, b; simpl in *; congruence.
Qed.

Lemma is_managed_spec bc next s t :
  is_managed bc next = true ->
  managed (mkPass (parent bc) (boundElementByKey bc) s t next).
Proof.
  unfold is_managed. intros H.
  apply andb_prop in H as [H H5].
  apply andb_prop in H as [H H4]. apply andb_prop in H as [H H3].
  apply andb_prop in H as [H1 H2].
  apply bool_decide_eq_true in H1, H4. rewrite forallb_forall in H2, H3, H5.
  split; simpl.
  - exact H1.
  - intros n Hn. apply list_elem_of_In, H2 in Hn.
    destruct (boundElementByKey bc !! to_property_key (key n)) as [m|]; [|discriminate].
    apply node_eqb_eq in Hn. congruence.
  - intros k n Hk. apply elem_of_map_to_list, list_elem_of_In, H3 in Hk. simpl in Hk.
    apply andb_prop in Hk as [Ha Hb]. apply String.eqb_eq in Ha. apply Nat.ltb_lt in Hb. auto.
  - intros k1 k2 n1 n2 Hk1 Hk2 Hid.
    apply elem_of_map_to_list, list_elem_of_lookup in Hk1 as [i1 Hi1].
    apply elem_of_map_to_list, list_elem_of_lookup in Hk2 as [i2 Hi2].
    assert (i1 = i2).
    { eapply NoDup_lookup; [exact H4| |].
      - rewrite !list_lookup_fmap, Hi1. reflexivity.
      - rewrite !list_lookup_fmap, Hi2. simpl. rewrite Hid. reflexivity. }
    subst i2. congruence.
  - intros k [n Hk]. apply elem_of_map_to_list, list_elem_of_In, H5 in Hk.
    apply negb_true_iff in Hk. exact Hk.
Qed.

Lemma is_synced_spec ks bc next s t :
  is_synced ks bc next = true ->
  synced ks (mkPass (parent bc) (boundElementByKey bc) s t next).
Proof.
  unfold is_synced. intros H.
  apply andb_prop in H as [H H5]. apply andb_prop in H as [H H4].
  apply andb_prop in H as [H H3]. apply andb_prop in H as [H1 H2].
  apply bool_decide_eq_true in H2. apply Nat.eqb_eq in H3.
  rewrite forallb_forall in H4, H5.
  split; simpl.
  - exact H2.
  - apply is_managed_spec, H1.
  - apply Forall2_same_length_lookup_2; [exact H3|].
    intros i k n Hk Hn.
    assert (Hz : zip ks (parent bc) !! i = Some (k, n)).
    { rewrite lookup_zip_with, Hk. simpl. rewrite Hn. reflexivity. }
    apply list_elem_of_lookup_2, list_elem_of_In, H4 in Hz. simpl in Hz.
    destruct (boundElementByKey bc !! k) as [m|]; [|discriminate].
    apply node_eqb_eq in Hz. congruence.
  - intros k [n Hk]. apply elem_of_map_to_list, list_elem_of_In, H5 in Hk. simpl in Hk.
    apply bool_decide_eq_true in Hk. exact Hk.
Qed.

Lemma synced_plain ks p : synced ks p -> plain ks.
Proof.
  intros [_ Hman Hch _]. apply Forall_forall. intros k Hk.
  apply list_elem_of_lookup in Hk as [i Hi].
  destruct (Forall2_lookup_l _ _ _ _ _ Hch Hi) as (n & _ & Hn).
  apply (managed_plain _ Hman). eauto.
Qed.

(** ** The key loop *)

Lemma index_keys_lookup mk items : forall i keys k,
  is_Some (index_keys mk items i keys !! k) <->
  is_Some (keys !! k) \/ k ∈ keys_of mk items.
Proof.
  induction items as [|v items IH]; intros i keys k; simpl.
  - rewrite elem_of_nil. tauto.
  - rewrite IH, elem_of_cons. destruct (decide (k = item_key mk v)) as [->|Hne].
    + rewrite lookup_insert_eq. split; [auto|]. intros _. left. eauto.
    + rewrite lookup_insert_ne by congruence. tauto.
Qed.

Lemma raw_key_wrapped mk n v : isFnState v = false -> raw_key mk (VState n v) = raw_key mk v.
Proof. intros H. unfold raw_key. destruct v; try reflexivity. discriminate. Qed.

Lemma keys_of_wrapped mk : forall items n, keys_of mk (wrapped n items) = keys_of mk items.
Proof.
  induction items as [|v items IH]; intros n; simpl; [reflexivity|].
  destruct (isFnState v) eqn:E; simpl.
  - f_equal. apply IH.
  - unfold keys_of in *. simpl. f_equal; [|apply IH].
    unfold item_key. rewrite raw_key_wrapped by exact E. reflexivity.
Qed.

Lemma raw_keys_wrapped mk : forall items n, raw_keys mk (wrapped n items) = raw_keys mk items.
Proof.
  induction items as [|v items IH]; intros n; simpl; [reflexivity|].
  destruct (isFnState v) eqn:E; simpl.
  - f_equal. apply IH.
  - unfold raw_keys in *. simpl. f_equal; [|apply IH].
    rewrite raw_key_wrapped by exact E. reflexivity.
Qed.

Lemma wrapped_states : forall items n, Forall (fun v => isFnState v = true) (wrapped n items).
Proof.
  induction items as [|v items IH]; intros n; simpl; [constructor|].
  destruct (isFnState v) eqn:E; constructor; auto.
Qed.

Lemma wrapped_id : forall items n,
  forallb isFnState items = true -> wrapped n items = items /\ next_after n items = n.
Proof.
  induction items as [|v items IH]; intros n H; simpl in *; [auto|].
  apply andb_prop in H as [H1 H2]. rewrite H1.
  destruct (IH n H2) as [-> ->]. auto.
Qed.

Lemma length_wrapped : forall items n, length (wrapped n items) = length items.
Proof.
  induction items as [|v items IH]; intros n; simpl; [reflexivity|].
  destruct (isFnState v); simpl; f_equal; apply IH.
Qed.

Lemma compute_keys_app st old mk : forall A B pre keys keysArr w,
  mapKey (ctx w) = mk ->
  currentValue (ctx w) = VArr (pre ++ A ++ B) ->
  NoDup (keys_of mk A) ->
  plain (keys_of mk A) ->
  (forall k, k ∈ keys_of mk A -> keys !! k = None) ->
  compute_keys st old (A ++ B) (length pre) keys keysArr w
  = compute_keys st old B (length (pre ++ wrapped (next_state w) A))
      (index_keys mk A (length pre) keys) (keysArr ++ raw_keys mk A)
      (after_keys pre A B w).
Proof.
  unfold after_keys.
  induction A as [|v A IH]; intros B pre keys keysArr w Hmk Hcur Hnd Hpl Hfresh.
  - simpl. rewrite !app_nil_r. f_equal.
    destruct w as [c tk tr rj nn ns]. destruct c. simpl in *. subst. reflexivity.
  - simpl in Hnd. apply NoDup_cons in Hnd as [Hv Hnd].
    simpl in Hpl. apply Forall_cons in Hpl as [Hpv Hpl].
    assert (Hk : defined_in keys (item_key mk v) = false)
      by (apply defined_in_none; [exact Hpv|apply Hfresh; left]).
    assert (Hfresh' : forall k, k ∈ keys_of mk A ->
                                <[item_key mk v := length pre]> keys !! k = None).
    { intros k Hk'. rewrite lookup_insert_ne; [apply Hfresh; right; exact Hk'|].
      intros <-. exact (Hv Hk'). }
    change ((v :: A) ++ B) with (v :: (A ++ B)).
    cbn [compute_keys]. destruct (isFnState v) eqn:Hst.
    + unfold bind at 1. unfold ret at 1. unfold bind at 1, gets at 1. rewrite Hmk.
      fold (raw_key mk v). fold (item_key mk v). rewrite Hk.
      replace (S (length pre)) with (length (pre ++ [v])) by (rewrite length_app; simpl; lia).
      rewrite (IH B (pre ++ [v]) _ _ w Hmk); auto.
      * cbn [wrapped next_after]. rewrite Hst.
        rewrite <- ?app_assoc, ?length_app. simpl.
        rewrite <- ?app_assoc, ?Nat.add_1_r. reflexivity.
      * rewrite Hcur, <- app_assoc. reflexivity.
    + unfold bind at 1. unfold bind at 1. unfold fnstate_item.
      unfold bind at 1. unfold store_item, modify_ctx, modify. unfold ret at 1.
      unfold bind at 1, gets at 1. simpl. rewrite Hmk.
      fold (raw_key mk v).
      assert (Hraw : keyMapper mk v = raw_key mk v).
      { unfold raw_key. destruct v; try reflexivity. discriminate. }
      rewrite Hraw. fold (item_key mk v). rewrite Hk.
      set (w1 := set_ctx _ _).
      replace (S (length pre)) with (length (pre ++ [VState (next_state w) v]))
        by (rewrite length_app; simpl; lia).
      rewrite (IH B (pre ++ [VState (next_state w) v]) _ _ w1); auto.
      * cbn [wrapped next_after]. rewrite Hst. subst w1. simpl.
        rewrite <- ?app_assoc, ?length_app. simpl.
        rewrite <- ?app_assoc, ?Nat.add_1_r. reflexivity.
      * subst w1. simpl. rewrite Hcur. simpl.
        rewrite insert_app_r_alt by lia. rewrite Nat.sub_diag. simpl.
        rewrite <- app_assoc. reflexivity.
Qed.

Lemma after_keys_id pre items post w :
  currentValue (ctx w) = VArr (pre ++ items ++ post) ->
  forallb isFnState items = true ->
  after_keys pre items post w = w.
Proof.
  intros Hcur Hst. unfold after_keys.
  destruct (wrapped_id items (next_state w) Hst) as [-> ->].
  destruct w as [c tk tr rj nn ns]. destruct c. simpl in *. subst. reflexivity.
Qed.

Lemma compute_keys_all st old mk items w :
  mapKey (ctx w) = mk ->
  currentValue (ctx w) = VArr items ->
  NoDup (keys_of mk items) ->
  plain (keys_of mk items) ->
  compute_keys st old items 0 ∅ [] w
  = Ret (index_keys mk items 0 ∅, raw_keys mk items) (after_keys [] items [] w).
Proof.
  intros Hmk Hcur Hnd Hpl.
  pose proof (compute_keys_app st old mk items [] [] ∅ [] w Hmk) as H.
  rewrite app_nil_r in H. simpl in H. rewrite H; auto.
Qed.

(** A key met before, or one that names a member of [Object.prototype]:
    the value is rolled back when there is an old state, and the loop
    throws. *)
Lemma compute_keys_dup st old mk A v B w :
  mapKey (ctx w) = mk ->
  currentValue (ctx w) = VArr (A ++ v :: B) ->
  NoDup (keys_of mk A) ->
  plain (keys_of mk A) ->
  item_key mk v ∈ keys_of mk A \/ inherited (item_key mk v) = true ->
  compute_keys st old (A ++ v :: B) 0 ∅ [] w
  = ((if truthy old then st [old] >> ret tt else ret tt) >> throw DuplicateKey)
      (after_keys [] (A ++ [v]) B w).
Proof.
  intros Hmk Hcur Hnd Hpl Hin.
  rewrite (compute_keys_app st old mk A (v :: B) [] ∅ [] w Hmk); auto.
  assert (Hi : defined_in (index_keys mk A 0 ∅) (item_key mk v) = true).
  { destruct Hin as [Hin|Hin]; [|apply defined_in_inherited, Hin].
    apply defined_in_own, index_keys_lookup. right. exact Hin. }
  simpl.
  assert (Hw : forall n, wrapped n (A ++ [v]) = wrapped n A ++ wrapped (next_after n A) [v]
                      /\ next_after n (A ++ [v]) = next_after (next_after n A) [v]).
  { clear. induction A as [|a A IH]; intros n; simpl; [auto|].
    destruct (isFnState a); simpl.
    - destruct (IH n) as [-> ->]. auto.
    - destruct (IH (S n)) as [-> ->]. auto. }
  unfold after_keys. destruct (Hw (next_state w)) as [-> ->]. clear Hw.
  cbn [compute_keys]. destruct (isFnState v) eqn:Hst.
  - unfold bind at 1. unfold ret at 1. unfold bind at 1, gets at 1. simpl. rewrite Hmk.
    fold (raw_key mk v). fold (item_key mk v). rewrite Hi.
    rewrite Hst. simpl. rewrite <- app_assoc. reflexivity.
  - unfold bind at 1. unfold bind at 1. unfold fnstate_item.
    unfold bind at 1. unfold store_item, modify_ctx, modify. unfold ret at 1.
    unfold bind at 1, gets at 1. simpl. rewrite Hmk.
    assert (Hraw : keyMapper mk v = raw_key mk v).
    { unfold raw_key. destruct v; try reflexivity. discriminate. }
    rewrite Hraw. fold (item_key mk v). rewrite Hi.
    rewrite Hst. simpl.
    rewrite insert_app_r_alt by (rewrite length_wrapped; lia).
    rewrite length_wrapped, Nat.sub_diag. simpl. rewrite <- app_assoc. reflexivity.
Qed.

(** Splitting an array at the first item whose key the loop rejects. *)
Lemma first_rejected mk items :
  ~ (NoDup (keys_of mk items) /\ plain (keys_of mk items)) ->
  exists A v B, items = A ++ v :: B /\ NoDup (keys_of mk A) /\ plain (keys_of mk A) /\
                (item_key mk v ∈ keys_of mk A \/ inherited (item_key mk v) = true).
Proof.
  intros Hbad. induction items as [|v items IH] using rev_ind.
  - exfalso. apply Hbad. split; constructor.
  - destruct (decide (NoDup (keys_of mk items))) as [Hnd|Hnd];
      [destruct (decide (plain (keys_of mk items))) as [Hpl|Hpl]|].
    + exists items, v, []. repeat split; auto.
      destruct (decide (item_key mk v ∈ keys_of mk items)) as [Hin|Hout]; [left; exact Hin|].
      destruct (inherited (item_key mk v)) eqn:Hv; [right; reflexivity|].
      exfalso. apply Hbad. unfold keys_of, plain in *. rewrite fmap_app. simpl. split.
      * apply NoDup_app. repeat split; auto.
        -- intros k Hk Hk'. apply list_elem_of_singleton in Hk'. subst k. auto.
        -- apply NoDup_singleton.
      * apply Forall_app. split; [exact Hpl|]. constructor; [exact Hv|constructor].
    + destruct IH as (A & u & B & -> & HA & HP & Hu); [tauto|].
      exists A, u, (B ++ [v]). rewrite <- app_assoc. auto.
    + destruct IH as (A & u & B & -> & HA & HP & Hu); [tauto|].
      exists A, u, (B ++ [v]). rewrite <- app_assoc. auto.
Qed.

Lemma first_duplicate mk items :
  duplicate_keys mk items ->
  exists A v B, items = A ++ v :: B /\ NoDup (keys_of mk A) /\ plain (keys_of mk A) /\
                (item_key mk v ∈ keys_of mk A \/ inherited (item_key mk v) = true).
Proof.
  intros (i & j & a & b & Hij & Ha & Hb & Hk). apply first_rejected. intros [Hnd _].
  assert (i = j); [|lia].
  eapply NoDup_lookup; [exact Hnd| |].
  - unfold keys_of. rewrite list_lookup_fmap, Ha. reflexivity.
  - unfold keys_of. rewrite list_lookup_fmap, Hb. simpl. rewrite Hk. reflexivity.
Qed.

(** ** A pass over a world that is in sync *)

Lemma world_of_pass_of j bc w :
  bindContexts (ctx w) !! j = Some bc -> world_of j bc (pass_of w bc) w = w.
Proof.
  intros Hj. unfold world_of, pass_of. simpl.
  destruct bc. simpl. rewrite list_insert_id by exact Hj.
  destruct w as [c tk tr rj nn ns]. destruct c. reflexivity.
Qed.

Lemma with_pass_unchanged {A} j (m : M Pass A) a bc w :
  bindContexts (ctx w) !! j = Some bc ->
  m (pass_of w bc) = Ret a (pass_of w bc) ->
  with_pass j m w = Ret a w.
Proof.
  intros Hj Hm. unfold with_pass. rewrite Hj, Hm, world_of_pass_of by exact Hj.
  reflexivity.
Qed.

Lemma in_sync_spec w : in_sync w = true -> in_sync_facts w.
Proof.
  unfold in_sync. intros H.
  apply andb_prop in H as [H H4]. apply andb_prop in H as [H H3].
  apply andb_prop in H as [H1 H2].
  split.
  - destruct (currentValue (ctx w)); try discriminate. reflexivity.
  - exact H2.
  - intros j bc Hj. rewrite forallb_forall in H3.
    apply list_elem_of_lookup_2, list_elem_of_In, H3 in Hj.
    apply is_synced_spec, Hj.
  - intros Hnil Hne. rewrite Hnil in H4.
    destruct (bindContexts (ctx w)); [congruence|].
    apply bool_decide_eq_true in H4. exact H4.
Qed.

Lemma zip_raw_keys mk items :
  zip (raw_keys mk items) items = (fun v => (raw_key mk v, v)) <$> items.
Proof. induction items as [|v items IH]; simpl; [reflexivity|]. f_equal. exact IH. Qed.

Lemma arrangeElements_in_sync st j old w :
  in_sync_facts w -> j < length (bindContexts (ctx w)) ->
  arrangeElements st j old w = Ret tt w.
Proof.
  intros [Hcur Hst Hctx Hsel] Hj.
  destruct (lookup_lt_is_Some_2 _ _ Hj) as [bc Hbc].
  specialize (Hctx j bc Hbc). pose proof (synced_plain _ _ Hctx) as Hpl.
  destruct Hctx as [Hnd Hman Hch Hdom].
  unfold arrangeElements. unfold bind at 1, gets at 1.
  destruct (array_items (currentValue (ctx w))) as [|v items] eqn:Hitems.
  - apply (with_pass_unchanged j _ tt bc); [exact Hbc|].
    unfold clear_all, modify. simpl in *.
    apply Forall2_nil_inv_l in Hch. rewrite Hch. f_equal.
    unfold pass_of. f_equal.
    + symmetry. exact Hch.
    + symmetry. apply map_eq. intros k. rewrite lookup_empty.
      destruct (boundElementByKey bc !! k) eqn:E; [|reflexivity].
      exfalso. eapply elem_of_nil, Hdom; eauto.
    + symmetry. apply Hsel; [reflexivity|]. intros Hnil. rewrite Hnil in Hbc. discriminate.
  - cbv beta iota. rewrite <- Hitems in *. clear Hitems v items.
    unfold bind at 1.
    rewrite (compute_keys_all st old (mapKey (ctx w)) _ w eq_refl Hcur Hnd Hpl).
    rewrite after_keys_id by (simpl; rewrite ?app_nil_r; auto).
    unfold bind at 1, gets at 1. unfold bind at 1, gets at 1.
    apply (with_pass_unchanged j _ tt bc); [exact Hbc|].
    unfold bind at 1.
    rewrite (place_all_in_place _ _ _ _ (children (pass_of w bc)) []).
    + apply catch_strays_none. intros k Hk. apply index_keys_lookup. right. auto.
    + rewrite app_nil_r. reflexivity.
    + apply Hman.
    + rewrite rev_involutive, zip_raw_keys. apply Forall2_fmap_l.
      unfold keys_of in Hch. apply Forall2_fmap_l in Hch. exact Hch.
Qed.

Lemma for_each_unchanged {S A} (body : A -> M S unit) (l : list A) s :
  (forall x, x ∈ l -> body x s = Ret tt s) -> for_each body l s = Ret tt s.
Proof.
  induction l as [|x l IH]; intros H; [reflexivity|].
  simpl. unfold bind. rewrite H by left. apply IH. intros y Hy. apply H. right. exact Hy.
Qed.

Lemma reconcile_in_sync st old w :
  in_sync_facts w -> reconcile st old w = Ret tt w.
Proof.
  intros Hs. unfold reconcile. unfold bind at 1, gets at 1.
  apply for_each_unchanged. intros j Hj.
  apply elem_of_seq in Hj. apply arrangeElements_in_sync; [exact Hs|lia].
Qed.

Lemma managed_frame c b s t n s' t' :
  managed (mkPass c b s t n) -> managed (mkPass c b s' t' n).
Proof. intros [H1 H2 H3 H4]. split; assumption. Qed.

Lemma synced_frame ks c b s t n s' t' :
  synced ks (mkPass c b s t n) -> synced ks (mkPass c b s' t' n).
Proof.
  intros [H1 H2 H3 H4]. split; try assumption. eapply managed_frame, H2.
Qed.

Lemma in_sync_frame w w' :
  in_sync_facts w -> ctx w' = ctx w -> next_node w' = next_node w -> in_sync_facts w'.
Proof.
  intros [H1 H2 H3 H4] Hc Hn. split; rewrite ?Hc; auto.
  intros j bc Hj. specialize (H3 j bc Hj). unfold pass_of in *. rewrite Hc, Hn.
  eapply synced_frame, H3.
Qed.

Lemma dom_ops_app t1 t2 : dom_ops (t1 ++ t2) = dom_ops t1 ++ dom_ops t2.
Proof. apply List.filter_app. Qed.

Lemma dom_ops_notifications v old l : dom_ops (notifications v old l) = [].
Proof. induction l as [|o l IH]; [reflexivity|exact IH]. Qed.

Lemma notify_step behave st steps i v old w o :
  observers (ctx w) !! i = Some o ->
  notify behave st (S steps) i v old w
  = (call_observer behave st o v old >> notify behave st steps (S i) v old) w.
Proof. intros H. simpl. unfold bind at 1, gets at 1. rewrite H. reflexivity. Qed.

Lemma notify_in_sync behave st v old :
  (forall l n o w', behave l n o w' = Ret tt w') ->
  forall steps i w,
    in_sync_facts w ->
    length (observers (ctx w)) - i < steps ->
    notify behave st steps i v old w
    = Ret tt (set_trace (trace w ++ notifications v old (drop i (observers (ctx w)))) w).
Proof.
  intros Hin. induction steps as [|steps IH]; intros i w Hs Hlen; [lia|].
  destruct (observers (ctx w) !! i) as [o|] eqn:Hi.
  - rewrite (notify_step _ _ _ _ _ _ _ _ Hi), (drop_S _ _ _ Hi).
    unfold bind at 1. unfold call_observer. unfold bind at 1, log_event, modify.
    set (w1 := set_trace _ w).
    assert (Hs1 : in_sync_facts w1) by (eapply in_sync_frame; eauto).
    assert (Hrec : reconcile_observer st v old w1 = Ret tt w1).
    { unfold reconcile_observer. unfold bind at 1, gets at 1.
      rewrite (sync_items _ Hs1). simpl. apply reconcile_in_sync, Hs1. }
    assert (Hnext : notify behave st steps (S i) v old w1
                    = Ret tt (set_trace
                        (trace w ++ notifications v old (o :: drop (S i) (observers (ctx w)))) w)).
    { rewrite IH; auto.
      - subst w1. simpl. unfold notifications. simpl. rewrite <- app_assoc. reflexivity.
      - subst w1. simpl. apply lookup_lt_Some in Hi. lia. }
    destruct (obs_fn o) as [l|]; [rewrite Hin|rewrite Hrec]; exact Hnext.
  - simpl. unfold bind at 1, gets at 1. rewrite Hi.
    apply lookup_ge_None in Hi. rewrite drop_ge by lia.
    unfold ret, notifications. simpl. rewrite app_nil_r, set_trace_id. reflexivity.
Qed.

(** ** A duplicate key *)

Section Duplicate.

Context (behave : label -> value -> value -> M World unit)
        (inert : forall l n o w', behave l n o w' = Ret tt w')
        (good : World) (items : list value)
        (Hgood : in_sync_facts good)
        (Hbound : bindContexts (ctx good) <> [])
        (Hdup : duplicate_keys (mapKey (ctx good)) items).

Lemma reconcile_observer_armed fuel w :
  armed good items w -> length (observers (ctx good)) + 1 < fuel ->
  exists w', reconcile_observer (state behave fuel) (VArr items) (currentValue (ctx good)) w
             = Raise DuplicateKey w' /\ restored good w'.
Proof.
  intros (Hc & Hn & Hd) Hfuel.
  destruct (first_duplicate _ _ Hdup) as (A & v & B & Hitems & HA & HP & Hv).
  set (old := currentValue (ctx good)).
  assert (Hold : old = VArr (array_items old)) by apply (sync_items _ Hgood).
  unfold reconcile_observer. unfold bind at 1, gets at 1. rewrite Hc. simpl.
  unfold reconcile. unfold bind at 1, gets at 1. rewrite Hc. simpl.
  destruct (bindContexts (ctx good)) as [|bc0 bcs] eqn:Hbcs; [congruence|].
  simpl. unfold bind at 1. unfold arrangeElements. unfold bind at 1, gets at 1.
  rewrite Hc. simpl. rewrite Hitems.
  remember (A ++ v :: B) as l eqn:Hl.
  destruct l as [|x xs]; [destruct A; discriminate|].
  cbv beta iota. rewrite Hl in *. unfold bind at 1.
  rewrite (compute_keys_dup _ _ (mapKey (ctx good)) A v B w);
    [| rewrite Hc; reflexivity | rewrite Hc, Hitems; reflexivity
     | exact HA | exact HP | exact Hv].
  set (wd := after_keys [] (A ++ [v]) B w).
  assert (Ht : truthy old = true) by (rewrite Hold; reflexivity).
  rewrite Ht.
  destruct fuel as [|fuel]; [lia|].
  unfold bind at 1. unfold bind at 1.
  rewrite state_write_unfold by (rewrite Hold; reflexivity).
  set (wr := set_ctx (set_currentValue old (ctx wd)) wd).
  assert (Hwr : ctx wr = ctx good).
  { subst wr wd. unfold after_keys. simpl. rewrite Hc. subst old.
    destruct (ctx good). reflexivity. }
  assert (Hsr : in_sync_facts wr).
  { eapply in_sync_frame; [exact Hgood|exact Hwr|]. subst wr wd. simpl. exact Hn. }
  unfold bind at 1.
  rewrite (notify_in_sync behave _ _ _ inert); [|exact Hsr|rewrite Hwr; lia].
  unfold ret at 1. unfold ret at 1. unfold throw.
  eexists. split; [reflexivity|].
  split; [exact Hwr|]. split; [subst wr wd; simpl; exact Hn|].
  simpl. rewrite dom_ops_app, dom_ops_notifications, app_nil_r. exact Hd.
Qed.

Lemma notify_armed fuel : forall steps i w,
  armed good items w ->
  (exists i' o, i <= i' /\ observers (ctx good) !! i' = Some o /\ is_user o = false) ->
  length (observers (ctx good)) - i < steps ->
  length (observers (ctx good)) + 1 < fuel ->
  exists w', notify behave (state behave fuel) steps i (VArr items) (currentValue (ctx good)) w
             = Raise DuplicateKey w' /\ restored good w'.
Proof.
  induction steps as [|steps IH]; intros i w Harm Hex Hsteps Hfuel; [lia|].
  pose proof Harm as (Hc & Hn & Hd).
  assert (Hobs : observers (ctx w) = observers (ctx good)) by (rewrite Hc; reflexivity).
  destruct (observers (ctx good) !! i) as [o|] eqn:Hi.
  - rewrite (notify_step _ _ _ _ _ _ _ o) by (rewrite Hobs; exact Hi).
    unfold bind at 1. unfold call_observer. unfold bind at 1, log_event, modify.
    set (w1 := set_trace _ w).
    assert (Harm1 : armed good items w1).
    { subst w1. repeat split; simpl; auto.
      rewrite dom_ops_app, app_nil_r. exact Hd. }
    destruct (obs_fn o) as [l|] eqn:Hfn.
    + rewrite inert. apply IH; auto.
      * destruct Hex as (i' & o' & Hle & Hi' & Hu).
        exists i', o'. repeat split; auto.
        destruct (decide (i' = i)) as [->|Hne]; [|lia].
        rewrite Hi in Hi'. injection Hi' as <-. unfold is_user in Hu.
        rewrite Hfn in Hu. discriminate.
      * apply lookup_lt_Some in Hi. lia.
    + destruct (reconcile_observer_armed fuel w1 Harm1 Hfuel) as (w' & Hr & Hres).
      rewrite Hr. eauto.
  - exfalso. destruct Hex as (i' & o' & Hle & Hi' & _).
    apply lookup_ge_None in Hi. apply lookup_lt_Some in Hi'. lia.
Qed.

End Duplicate.

(** C1. A container bound to a collection holds a value that was
    reconciled.  When [set] is given an array in which two items resolve to
    the same key, the call throws the duplicate-key error, and the
    container after the call is the container before it: the value, the
    registry, and every bound parent with its children.  No operation on the
    children of any parent took place.  (Observers other than the
    reconciler's are taken to return without touching the container.) *)
Theorem duplicate_key_rolls_back behave fuel w items :
  (forall l n o w', behave l n o w' = Ret tt w') ->
  in_sync w = true ->
  bindContexts (ctx w) <> [] ->
  existsb (fun o => negb (is_user o)) (observers (ctx w)) = true ->
  duplicate_keys (mapKey (ctx w)) items ->
  length (observers (ctx w)) + 3 <= fuel ->
  exists w',
    state behave fuel [VArr items] w = Raise DuplicateKey w' /\
    ctx w' = ctx w /\
    dom_ops (trace w') = dom_ops (trace w).
Proof.
  intros Hin Hsync Hbound Hrec Hdup Hfuel. apply in_sync_spec in Hsync.
  destruct fuel as [|fuel]; [lia|].
  rewrite state_write_unfold by reflexivity.
  apply existsb_exists in Hrec as (o & Ho & Hu).
  apply list_elem_of_In, list_elem_of_lookup in Ho as [i Hi].
  apply negb_true_iff in Hu.
  destruct (notify_armed behave Hin w items Hsync Hbound Hdup fuel fuel 0
              (set_ctx (set_currentValue (VArr items) (ctx w)) w)) as (w' & Hr & Hres).
  - repeat split.
  - exists i, o. repeat split; auto. lia.
  - lia.
  - lia.
  - exists w'. unfold bind. simpl in Hr. rewrite Hr.
    destruct Hres as (Hc & _ & Hd). auto.
Qed.

Lemma duplicate_key_rolls_back_witness :
  exists w',
    state inert_observer 5 [VArr [item "c"; item "a"; item "c"]] world_abc_watched
    = Raise DuplicateKey w' /\
    ctx w' = ctx world_abc_watched /\
    dom_ops (trace w') = dom_ops (trace world_abc_watched).
Proof.
  apply (duplicate_key_rolls_back inert_observer 5 world_abc_watched
           [item "c"; item "a"; item "c"]).
  - intros l n o w'. reflexivity.
  - vm_compute. reflexivity.
  - vm_compute. discriminate.
  - vm_compute. reflexivity.
  - exists 0, 2, (item "c"), (item "c"). repeat split. lia.
  - vm_compute. lia.
Defined.

(** The key loop takes a key that names a member of [Object.prototype]
    for one met before, although no other item has it. *)
Lemma inherited_name_is_rejected :
  exists w',
    state inert_observer 5 [VArr [item "constructor"]] world_abc_watched
    = Raise DuplicateKey w' /\
    ctx w' = ctx world_abc_watched.
Proof. eexists. split; vm_compute; reflexivity. Qed.


(** ** Keys without a key function *)

Lemma wrap_items_wrapped : forall items w,
  forallb has_properties items = true ->
  wrap_items items w
  = Ret (wrapped (next_state w) items)
        (set_next_state (next_after (next_state w) items) w).
Proof.
  induction items as [|v items IH]; intros w H; simpl in *.
  - unfold ret. destruct w; reflexivity.
  - apply andb_prop in H as [Hv H]. unfold bind at 1.
    destruct v; try discriminate; simpl;
      unfold fnstate_item, ret at 1; unfold bind at 1; rewrite IH by exact H; reflexivity.
Qed.

Lemma item_key_index_fallback v :
  typeof (state_value v) = TObject -> item_key IndexMapKey v = "undefined".
Proof. intros H. unfold item_key, raw_key, keyMapper. rewrite H. reflexivity. Qed.

(** C9 fails on the code. [doBindChildren] installs [(o, i) => i] as the
    key function, and [keyMapper] calls it with the value alone, so every
    structured item gets the key [undefined]: binding an array of two or
    more objects throws the duplicate-key error instead of rendering. *)
Theorem index_fallback_rejects_structured_items behave fuel cs render a b rest :
  typeof a = TObject -> typeof b = TObject ->
  forallb has_properties (a :: b :: rest) = true ->
  exists w',
    doBindChildren behave fuel (Some cs) render (fnstate (VArr (a :: b :: rest)) NoMapKey)
    = Raise DuplicateKey w' /\
    mapKey (ctx w') = IndexMapKey /\
    parent <$> bindContexts (ctx w') = [cs].
Proof.
  intros Ha Hb Hprops.
  assert (Hsa : isFnState a = false) by (destruct a; try reflexivity; discriminate).
  assert (Hsb : isFnState b = false) by (destruct b; try reflexivity; discriminate).
  remember (a :: b :: rest) as l eqn:Hl.
  unfold doBindChildren, fnstate.
  unfold bind at 1, gets at 1. simpl.
  unfold bind at 1. unfold bind at 1, log_event, modify at 1.
  unfold modify_ctx at 1, modify at 1.
  unfold bind at 1, gets at 1. simpl.
  unfold bind at 1. rewrite wrap_items_wrapped by exact Hprops.
  unfold bind at 1. unfold modify_ctx at 1, modify at 1.
  unfold bind at 1, gets at 1. simpl.
  unfold bind at 1. unfold modify_ctx at 1, modify at 1.
  unfold bind at 1. unfold doSubscribe. simpl.
  unfold bind at 1. unfold reconcile. unfold bind at 1, gets at 1. simpl.
  unfold bind at 1. unfold arrangeElements. unfold bind at 1, gets at 1.
  subst l. simpl.
  rewrite Hsa, Hsb. cbv beta iota.
  change (VState 1 a :: VState 2 b :: wrapped 3 rest)
    with ([VState 1 a] ++ VState 2 b :: wrapped 3 rest).
  unfold bind at 1.
  match goal with |- context [compute_keys _ _ _ _ _ _ ?w0] => set (w := w0) end.
  rewrite (compute_keys_dup (state behave fuel) VUndef IndexMapKey
             [VState 1 a] (VState 2 b) (wrapped 3 rest) w); try reflexivity.
  - simpl. unfold bind, ret, throw. eexists. split; [reflexivity|]. split; reflexivity.
  - apply NoDup_singleton.
  - simpl. rewrite item_key_index_fallback by assumption.
    constructor; [reflexivity|constructor].
  - simpl. rewrite !item_key_index_fallback by assumption. left. left.
Qed.

Lemma index_fallback_rejects_structured_items_witness :
  exists w',
    doBindChildren inert_observer 5 (Some []) (fun _ => true) world_without_keys
    = Raise DuplicateKey w' /\
    mapKey (ctx w') = IndexMapKey /\
    parent <$> bindContexts (ctx w') = [[]].
Proof.
  apply (index_fallback_rejects_structured_items inert_observer 5 [] (fun _ => true)
           (VObj [("name", VStr "x")]) (VObj [("name", VStr "y")]) []); reflexivity.
Defined.

(** ** A bound container set to a value that is no array *)

(** C8 fails on the code. The follow-up [set] that wraps the value runs
    inside the executor of [new Promise], that is, inside the reconciler's
    observer: the observer subscribed after it is told of the wrapped value
    before it is told of the value that caused the wrapping, and the call
    returns the bare value while the container holds the wrapped one. *)
Theorem coercion_runs_inside_the_dispatch :
  let old := currentValue (ctx world_abc_watched) in
  exists w' before,
    state inert_observer 5 [VNum 5] world_abc_watched = Ret (VNum 5) w' /\
    trace w' = before ++ [Notified 1 (VArr [VNum 5]) (VNum 5); Notified 1 (VNum 5) old] /\
    currentValue (ctx w') = VArr [VState 4 (VNum 5)] /\
    rejected w' = [].
Proof.
  cbv zeta. eexists.
  exists (removelast (removelast
            (trace (world_after (state inert_observer 5 [VNum 5] world_abc_watched)
                      world_abc_watched)))).
  split; [vm_compute; reflexivity|].
  split; [|split]; vm_compute; reflexivity.
Qed.

(** ** A pass over a managed parent *)

Lemma managed_same_node p a b :
  managed p ->
  bound p !! to_property_key (key a) = Some a ->
  bound p !! to_property_key (key b) = Some b ->
  nid a = nid b -> a = b.
Proof.
  intros Hm Ha Hb Hid.
  pose proof (managed_inj p Hm _ _ _ _ Ha Hb Hid) as Hk.
  rewrite Hk in Ha. congruence.
Qed.

Lemma managed_same_key p a b :
  managed p ->
  bound p !! to_property_key (key a) = Some a ->
  bound p !! to_property_key (key b) = Some b ->
  strict_eq (key a) (key b) = true -> a = b.
Proof.
  intros Hm Ha Hb Hk. apply strict_eq_eq in Hk. rewrite Hk in Ha. congruence.
Qed.

Lemma managed_bound_key p k n :
  managed p -> bound p !! k = Some n -> bound p !! to_property_key (key n) = Some n.
Proof. intros Hm Hk. destruct (managed_tags p Hm k n Hk) as [-> _]. exact Hk. Qed.

Lemma managed_child_below p n :
  managed p -> n ∈ children p -> nid n < fresh_id p.
Proof.
  intros Hm Hn. apply (managed_children p Hm) in Hn.
  apply (managed_tags p Hm) in Hn. tauto.
Qed.

(** The unit of a key that is not among those placed is none of the
    units placed. *)
Lemma unit_not_placed p placed U k cur :
  managed p ->
  Forall2 (fun k n => bound p !! k = Some n) placed U ->
  bound p !! k = Some cur -> k ∉ placed ->
  nid cur ∉ nid <$> U.
Proof.
  intros Hm Hall Hk Hnot Hin.
  apply list_elem_of_fmap in Hin as (u & Hid & Hu).
  apply list_elem_of_lookup in Hu as [i Hi].
  destruct (Forall2_lookup_r _ _ _ _ _ Hall Hi) as (kd & Hkd & Hb).
  assert (k = kd) by (eapply (managed_inj p Hm); eauto).
  subst kd. apply Hnot. eapply list_elem_of_lookup_2, Hkd.
Qed.

Lemma NoDup_nid_insert (L' L U : list Node) cur :
  NoDup (nid <$> (L ++ U)) -> L' `sublist_of` L ->
  nid cur ∉ nid <$> L' -> nid cur ∉ nid <$> U ->
  NoDup (nid <$> (L' ++ cur :: U)).
Proof.
  intros Hnd Hsub HL HU.
  assert (Hnd' : NoDup (nid <$> (L' ++ U))).
  { eapply sublist_NoDup; [exact Hnd|]. apply fmap_sublist.
    apply sublist_app; [exact Hsub|reflexivity]. }
  rewrite fmap_app in *. rewrite fmap_cons.
  apply NoDup_app in Hnd' as (H1 & H2 & H3).
  apply NoDup_app. repeat split; auto.
  - intros x Hx Hx'. apply elem_of_cons in Hx' as [->|Hx']; [auto|]. eapply H2; eauto.
  - apply NoDup_cons. auto.
Qed.

(** The children rearranged by one step: some of the old ones to the
    left, then the current unit, then the units already placed; with the
    map as it was, or without the entry of a unit that left the parent. *)
Lemma managed_rearranged p L U L' cur b' s' e' :
  managed p -> children p = L ++ U -> L' `sublist_of` L ->
  nid cur ∉ nid <$> L' -> nid cur ∉ nid <$> U ->
  bound p !! to_property_key (key cur) = Some cur ->
  (b' = bound p \/
   exists s, b' = delete (to_property_key (key s)) (bound p) /\
             bound p !! to_property_key (key s) = Some s /\
             s ∉ L' ++ cur :: U) ->
  managed (mkPass (L' ++ cur :: U) b' s' e' (fresh_id p)).
Proof.
  intros Hm Hcs Hsub HL HU Hcur Hb.
  assert (Hold : forall n, n ∈ L' ++ cur :: U ->
                           bound p !! to_property_key (key n) = Some n).
  { intros n Hn. apply elem_of_app in Hn as [Hn|Hn].
    - apply (managed_children p Hm). rewrite Hcs. apply elem_of_app. left.
      eapply elem_of_sublist; eauto.
    - apply elem_of_cons in Hn as [->|Hn]; [exact Hcur|].
      apply (managed_children p Hm). rewrite Hcs. apply elem_of_app. right. exact Hn. }
  assert (Hnd : NoDup (nid <$> (L' ++ cur :: U))).
  { apply (NoDup_nid_insert L' L); auto. rewrite <- Hcs. apply Hm. }
  destruct Hb as [->|(s & -> & Hs & Hnot)].
  - split; simpl; auto; apply Hm.
  - split; simpl; auto.
    + intros n Hn. rewrite lookup_delete_ne; [auto|].
      intros Heq. apply Hnot. rewrite Heq in Hs.
      rewrite (Hold n Hn) in Hs. injection Hs as <-. exact Hn.
    + intros k n Hk. apply lookup_delete_Some in Hk as [_ Hk].
      apply (managed_tags p Hm), Hk.
    + intros k1 k2 n1 n2 H1 H2. apply lookup_delete_Some in H1 as [_ H1].
      apply lookup_delete_Some in H2 as [_ H2]. apply (managed_inj p Hm); auto.
    + intros k [n Hk]. apply lookup_delete_Some in Hk as [_ Hk].
      apply (managed_plain p Hm). eauto.
Qed.

Lemma current_unit_spec render k valueState p :
  managed p -> inherited (to_property_key k) = false ->
  exists cur isNew p1,
    current_unit render k valueState p = Ret (cur, isNew) p1 /\
    managed p1 /\ children p1 = children p /\ selObs p1 = selObs p /\
    bound p1 !! to_property_key k = Some cur /\
    (isNew = false -> p1 = p) /\
    (isNew = true ->
       bound p !! to_property_key k = None /\
       bound p1 = <[to_property_key k := cur]> (bound p) /\
       (nid cur ∉ nid <$> children p) /\
       events p1 = events p ++ [Rendered (nid cur) valueState] /\
       fresh_id p1 = S (fresh_id p)).
Proof.
  intros Hm Hplain. unfold current_unit.
  destruct (bound p !! to_property_key k) as [n|] eqn:Hk.
  - exists n, false, p. split; [reflexivity|]. split; [exact Hm|].
    repeat split; auto; intros; discriminate.
  - eexists. exists true. eexists. split; [reflexivity|]. simpl.
    split; [|repeat split; auto; try apply lookup_insert_eq; try discriminate].
    + split; simpl.
      * apply Hm.
      * intros n Hn. pose proof (managed_children p Hm n Hn) as Hb.
        rewrite lookup_insert_ne; [exact Hb|]. intros Heq. rewrite Heq in Hk. congruence.
      * intros k' n Hk'. destruct (decide (to_property_key k = k')) as [<-|Hne].
        -- rewrite lookup_insert_eq in Hk'. injection Hk' as <-. simpl. split; [reflexivity|lia].
        -- rewrite lookup_insert_ne in Hk' by exact Hne.
           destruct (managed_tags p Hm k' n Hk'). split; [assumption|lia].
      * intros k1 k2 n1 n2 H1 H2 Hid.
        destruct (decide (to_property_key k = k1)) as [<-|Hne1];
          destruct (decide (to_property_key k = k2)) as [<-|Hne2]; auto.
        -- rewrite lookup_insert_eq in H1. rewrite lookup_insert_ne in H2 by exact Hne2.
           injection H1 as <-. simpl in Hid.
           destruct (managed_tags p Hm k2 n2 H2). lia.
        -- rewrite lookup_insert_eq in H2. rewrite lookup_insert_ne in H1 by exact Hne1.
           injection H2 as <-. simpl in Hid.
           destruct (managed_tags p Hm k1 n1 H1). lia.
        -- rewrite lookup_insert_ne in H1 by exact Hne1.
           rewrite lookup_insert_ne in H2 by exact Hne2.
           apply (managed_inj p Hm _ _ _ _ H1 H2 Hid).
      * intros k' Hk'. destruct (decide (to_property_key k = k')) as [<-|Hne].
        -- exact Hplain.
        -- rewrite lookup_insert_ne in Hk' by exact Hne. apply (managed_plain p Hm), Hk'.
    + simpl. intros Hin. apply list_elem_of_fmap in Hin as (c & Hid & Hc).
      apply (managed_child_below p c Hm) in Hc. lia.
Qed.

Lemma insert_either j u cur p (b : bool) :
  u ∈ children p ->
  (if b then insertAdjacentBefore j u cur else insertBefore j cur u) p
  = Ret tt (mkPass (put_before cur u (detach cur (children p))) (bound p) (selObs p)
                   (events p ++ [Dom j (InsertBefore (nid cur) (nid u))]) (fresh_id p)).
Proof.
  intros Hu. destruct b; unfold insertAdjacentBefore, insertBefore;
    rewrite (is_child_elem _ _ Hu); reflexivity.
Qed.

Lemma replaceWith_here s cur L0 U :
  NoDup (nid <$> (L0 ++ s :: U)) -> nid s <> nid cur -> nid cur ∉ nid <$> U ->
  replaceWith s cur (L0 ++ s :: U) = detach cur L0 ++ cur :: U.
Proof.
  intros Hnd Hne HU. unfold replaceWith.
  assert (E : same_node s cur = false) by (apply same_node_false; exact Hne).
  rewrite E. rewrite detach_app. unfold detach at 2. simpl.
  assert (E' : same_node s cur = false) by exact E. rewrite E'. simpl.
  fold (detach cur U). rewrite (detach_absent cur U HU).
  apply exchange_here.
  rewrite fmap_app, fmap_cons in Hnd. apply NoDup_app in Hnd as (_ & Hdisj & _).
  intros Hin. apply list_elem_of_fmap in Hin as (x & Hid & Hx).
  apply elem_of_detach in Hx as [Hx _].
  apply (Hdisj (nid x)); [apply list_elem_of_fmap; eauto|]. rewrite <- Hid. left.
Qed.

Lemma put_before_fresh cur u L U0 :
  nid cur ∉ nid <$> (L ++ u :: U0) -> nid u ∉ nid <$> L ->
  put_before cur u (detach cur (L ++ u :: U0)) = L ++ cur :: u :: U0.
Proof.
  intros Hcur Hu. rewrite detach_absent by exact Hcur. apply put_before_here, Hu.
Qed.

Arguments detach : simpl never.
Arguments put_before : simpl never.
Arguments replaceWith : simpl never.

Lemma place_in_parent_spec keys j (ks : list string) prev cur isNew p L U placed :
  managed p ->
  (forall k, is_Some (keys !! k) <-> k ∈ ks) ->
  children p = L ++ U -> prev = head U ->
  Forall2 (fun k n => bound p !! k = Some n) placed U ->
  bound p !! to_property_key (key cur) = Some cur ->
  to_property_key (key cur) ∈ ks ->
  to_property_key (key cur) ∉ placed ->
  (isNew = true -> nid cur ∉ nid <$> children p) ->
  exists p' L',
    place_in_parent keys j prev cur isNew p = Ret tt p' /\
    managed p' /\ children p' = L' ++ cur :: U /\ fresh_id p' = fresh_id p /\
    (forall k, k ∈ ks -> bound p' !! k = bound p !! k) /\
    (exists evs, events p' = events p ++ evs /\
                 Forall (fun e => exists b op, e = Dom b op) evs).
Proof.
  intros Hm Hkeys Hcs -> Hplaced Hcur Hin Hnot Hnew.
  assert (HcurU : nid cur ∉ nid <$> U) by (eapply unit_not_placed; eauto).
  assert (Hnd : NoDup (nid <$> (L ++ U))) by (rewrite <- Hcs; apply Hm).
  assert (Hchild : forall n, n ∈ L ++ U -> bound p !! to_property_key (key n) = Some n).
  { intros n Hn. apply (managed_children p Hm). rewrite Hcs. exact Hn. }
  assert (Hdom : forall b op, Forall (fun e => exists b op, e = Dom b op) [Dom b op]).
  { intros. constructor; [eauto|constructor]. }
  unfold place_in_parent.
  destruct U as [|u U0]; simpl.
  - (* nothing placed yet *)
    rewrite app_nil_r in *. unfold bind at 1, gets at 1. rewrite Hcs.
    destruct L as [|l L0 _] using rev_ind.
    + simpl. exists (mkPass ([] ++ [cur]) (bound p) (selObs p)
                            (events p ++ [Dom j (Append (nid cur))]) (fresh_id p)), [].
      split; [unfold do_append, dom_call, modify; rewrite Hcs; reflexivity|].
      split; [eapply (managed_rearranged p [] [] []); eauto; rewrite fmap_nil; apply not_elem_of_nil|].
      simpl. split; [reflexivity|]. split; [reflexivity|]. split; [reflexivity|]. eauto.
    + unfold lastChild. rewrite last_snoc.
      destruct (strict_eq (key l) (key cur)) eqn:E; simpl.
      * assert (l = cur).
        { eapply (managed_same_key p); eauto. apply Hchild, elem_of_app. right. left. }
        subst l. exists p, L0. unfold ret.
        split; [reflexivity|]. split; [exact Hm|]. split; [exact Hcs|].
        split; [reflexivity|]. split; [reflexivity|].
        exists []. rewrite app_nil_r. split; [reflexivity|constructor].
      * exists (mkPass (detach cur (L0 ++ [l]) ++ [cur]) (bound p) (selObs p)
                       (events p ++ [Dom j (Append (nid cur))]) (fresh_id p)),
               (detach cur (L0 ++ [l])).
        split; [unfold do_append, dom_call, modify, append; rewrite Hcs; reflexivity|].
        split.
        { eapply (managed_rearranged p (L0 ++ [l]) []); eauto.
          - rewrite app_nil_r. exact Hcs.
          - apply detach_sublist.
          - intros H. apply list_elem_of_fmap in H as (x & Hid & Hx).
            apply elem_of_detach in Hx as [_ Hx]. congruence. }
        simpl. split; [reflexivity|]. split; [reflexivity|]. split; [reflexivity|]. eauto.
  - (* [u] was placed last *)
    unfold bind at 1, gets at 1. rewrite Hcs.
    pose proof Hnd as Hnd'. rewrite fmap_app, fmap_cons in Hnd'.
    apply NoDup_app in Hnd' as (HndL & Hdisj & HndU). apply NoDup_cons in HndU as [HuU0 HndU0].
    assert (HuL : nid u ∉ nid <$> L) by (intros H; apply (Hdisj _ H); left).
    rewrite previousSibling_here by assumption.
    assert (Hu : u ∈ children p) by (rewrite Hcs; apply elem_of_app; right; left).
    destruct L as [|s L0 _] using rev_ind.
    + simpl. rewrite insert_either by exact Hu. rewrite Hcs.
      rewrite put_before_fresh; [|exact HcurU|rewrite fmap_nil; apply not_elem_of_nil].
      eexists. exists []. split; [reflexivity|].
      split; [eapply (managed_rearranged p [] (u :: U0) []); eauto;
              rewrite fmap_nil; apply not_elem_of_nil|].
      simpl. split; [reflexivity|]. split; [reflexivity|]. split; [reflexivity|]. eauto.
    + rewrite last_snoc.
      assert (Hs : bound p !! to_property_key (key s) = Some s).
      { apply Hchild. apply elem_of_app. left. apply elem_of_app. right. left. }
      destruct (strict_eq (key s) (key cur)) eqn:E; simpl.
      * assert (s = cur) by (eapply (managed_same_key p); eauto).
        subst s. exists p, L0. unfold ret.
        split; [reflexivity|]. split; [exact Hm|].
        split; [rewrite Hcs, <- app_assoc; reflexivity|].
        split; [reflexivity|]. split; [reflexivity|].
        exists []. rewrite app_nil_r. split; [reflexivity|constructor].
      * assert (Hne : nid s <> nid cur).
        { intros Hid. assert (s = cur) by (eapply (managed_same_node p); eauto).
          subst s. rewrite strict_eq_refl in E. discriminate. }
        assert (Hnd2 : NoDup (nid <$> (L0 ++ s :: u :: U0))).
        { rewrite <- app_assoc in Hnd. exact Hnd. }
        assert (Hrep : replaceWith s cur ((L0 ++ [s]) ++ u :: U0)
                       = detach cur L0 ++ cur :: u :: U0).
        { rewrite <- app_assoc. simpl. apply replaceWith_here; auto. }
        assert (HsL0 : nid s ∉ nid <$> L0).
        { rewrite fmap_app, fmap_cons in Hnd2. apply NoDup_app in Hnd2 as (_ & Hd & _).
          intros H. apply (Hd _ H). left. }
        assert (Hsub : detach cur L0 `sublist_of` L0 ++ [s]).
        { eapply sublist_inserts_r, detach_sublist. }
        assert (HcurL' : nid cur ∉ nid <$> detach cur L0).
        { intros H. apply list_elem_of_fmap in H as (x & Hid & Hx).
          apply elem_of_detach in Hx as [_ Hx]. congruence. }
        assert (Hsout : s ∉ detach cur L0 ++ cur :: u :: U0).
        { intros H. apply elem_of_app in H as [H|H].
          - apply elem_of_detach in H as [H _]. apply HsL0, list_elem_of_fmap. eauto.
          - apply elem_of_cons in H as [->|H]; [congruence|].
            rewrite fmap_app, fmap_cons in Hnd2. apply NoDup_app in Hnd2 as (_ & _ & Hd).
            apply NoDup_cons in Hd as [Hd _]. apply Hd, list_elem_of_fmap. eauto. }
        destruct (negb (defined_in keys (to_property_key (key s)))) eqn:Hstale.
        -- apply negb_true_iff, defined_in_false in Hstale as [Hstale _].
           unfold bind at 1. unfold drop_stale, modify. unfold do_replace, dom_call, modify.
           simpl. rewrite Hcs, Hrep.
           eexists. exists (detach cur L0). split; [reflexivity|].
           split.
           { eapply (managed_rearranged p (L0 ++ [s]) (u :: U0)); eauto. }
           simpl. split; [reflexivity|]. split; [reflexivity|]. split; [|eauto].
           intros k Hk. apply lookup_delete_ne. intros <-.
           apply Hkeys in Hk. rewrite Hstale in Hk. destruct Hk. discriminate.
        -- destruct isNew.
           ++ rewrite insert_either by exact Hu. rewrite Hcs.
              rewrite put_before_fresh;
                [|rewrite <- Hcs; apply Hnew; reflexivity|exact HuL].
              eexists. exists (L0 ++ [s]). split; [reflexivity|].
              split.
              { eapply (managed_rearranged p (L0 ++ [s]) (u :: U0)); eauto.
                intros H. apply (Hnew eq_refl). rewrite Hcs, fmap_app.
                apply elem_of_app. left. exact H. }
              simpl. split; [rewrite <- app_assoc; reflexivity|].
              split; [reflexivity|]. split; [reflexivity|]. eauto.
           ++ unfold do_replace, dom_call, modify. rewrite Hcs, Hrep.
              eexists. exists (detach cur L0). split; [reflexivity|].
              split; [eapply (managed_rearranged p (L0 ++ [s]) (u :: U0)); eauto|].
              simpl. split; [reflexivity|]. split; [reflexivity|]. split; [reflexivity|]. eauto.
Qed.

Lemma Forall2_impl_elem {A B} (P Q : A -> B -> Prop) (l : list A) (k : list B) :
  Forall2 P l k -> (forall x y, x ∈ l -> y ∈ k -> P x y -> Q x y) -> Forall2 Q l k.
Proof.
  induction 1 as [|x y l k Hxy Hlk IH]; intros H; constructor.
  - apply H; [left|left|exact Hxy].
  - apply IH. intros x' y' Hx' Hy'. apply H; right; assumption.
Qed.

Lemma place_step keys render j (ks : list string) its p0 placed U p k valueState :
  (forall k, is_Some (keys !! k) <-> k ∈ ks) ->
  plain ks ->
  placing ks its p0 placed U p ->
  Forall (fun k => k ∈ ks) placed ->
  to_property_key k ∈ ks -> to_property_key k ∉ placed -> (k, valueState) ∈ its ->
  exists cur p',
    place keys render j (head U) (k, valueState) p = Ret (Some cur) p' /\
    placing ks its p0 (to_property_key k :: placed) (cur :: U) p'.
Proof.
  intros Hkeys Hplain [Hm [L Hcs] Hunits Hreuse Hmono (evs & Hev & Hevs)] Hsub Hin Hnot Hit.
  assert (Hpk : inherited (to_property_key k) = false).
  { unfold plain in Hplain. rewrite Forall_forall in Hplain. apply Hplain, Hin. }
  destruct (current_unit_spec render k valueState p Hm Hpk)
    as (cur & isNew & p1 & Hcu & Hm1 & Hcs1 & _ & Hb1 & Hold & Hnew).
  assert (Hkey : to_property_key (key cur) = to_property_key k).
  { apply (managed_tags p1 Hm1 _ _ Hb1). }
  assert (Hsame : forall k', k' <> to_property_key k -> bound p1 !! k' = bound p !! k').
  { intros k' Hne. destruct isNew.
    - destruct (Hnew eq_refl) as (_ & -> & _). apply lookup_insert_ne. congruence.
    - rewrite (Hold eq_refl). reflexivity. }
  assert (Hunits1 : Forall2 (fun k n => bound p1 !! k = Some n) placed U).
  { eapply Forall2_impl_elem; [exact Hunits|]. intros kd u Hkd _ Hb. simpl.
    rewrite Hsame; [exact Hb|]. intros ->. exact (Hnot Hkd). }
  destruct (place_in_parent_spec keys j ks (head U) cur isNew p1 L U placed)
    as (p' & L' & Hpp & Hm' & Hcs' & Hfresh & Hkeep & evs' & Hev' & Hevs'); auto.
  { rewrite Hcs1. exact Hcs. }
  { rewrite Hkey. exact Hb1. }
  { rewrite Hkey. exact Hin. }
  { rewrite Hkey. exact Hnot. }
  { intros ->. rewrite Hcs1. apply (Hnew eq_refl). }
  exists cur, p'. split.
  - unfold place. unfold bind at 1. rewrite Hcu. unfold bind at 1. rewrite Hpp. reflexivity.
  - split.
    + exact Hm'.
    + exists L'. exact Hcs'.
    + constructor.
      * rewrite Hkeep by exact Hin. exact Hb1.
      * eapply Forall2_impl_elem; [exact Hunits1|]. intros kd u Hkd _ Hb. simpl.
        rewrite Hkeep; [exact Hb|]. rewrite Forall_forall in Hsub. auto.
    + intros k' n Hk' Hb0. rewrite Hkeep by exact Hk'.
      pose proof (Hreuse k' n Hk' Hb0) as Hb.
      destruct isNew.
      * destruct (Hnew eq_refl) as (Hnone & _).
        rewrite Hsame; [exact Hb|]. intros ->. congruence.
      * rewrite (Hold eq_refl). exact Hb.
    + rewrite Hfresh. destruct isNew.
      * destruct (Hnew eq_refl) as (_ & _ & _ & _ & ->). lia.
      * rewrite (Hold eq_refl). exact Hmono.
    + destruct isNew.
      * destruct (Hnew eq_refl) as (Hnone & _ & _ & Hev1 & _).
        exists (evs ++ [Rendered (nid cur) valueState] ++ evs').
        split; [rewrite Hev', Hev1, Hev, <- !app_assoc; reflexivity|].
        apply Forall_app. split; [exact Hevs|]. apply Forall_app. split.
        -- constructor; [|constructor]. simpl. exists k. split; [exact Hit|].
           destruct (bound p0 !! to_property_key k) as [n|] eqn:E; [|reflexivity].
           rewrite (Hreuse _ _ Hin E) in Hnone. discriminate.
        -- eapply Forall_impl; [exact Hevs'|]. intros e (b & op & ->). exact I.
      * rewrite (Hold eq_refl) in Hev'. exists (evs ++ evs').
        split; [rewrite Hev', Hev, <- app_assoc; reflexivity|].
        apply Forall_app. split; [exact Hevs|].
        eapply Forall_impl; [exact Hevs'|]. intros e (b & op & ->). exact I.
Qed.

Lemma place_all_spec keys render j (ks : list string) its p0 :
  (forall k, is_Some (keys !! k) <-> k ∈ ks) ->
  plain ks ->
  forall todo placed U p,
    placing ks its p0 placed U p ->
    Forall (fun k => k ∈ ks) placed ->
    NoDup (((fun it => to_property_key it.1) <$> rev todo) ++ placed) ->
    Forall (fun it => to_property_key it.1 ∈ ks /\ it ∈ its) todo ->
    exists p' U',
      place_all keys render j (head U) todo p = Ret tt p' /\
      placing ks its p0 (((fun it => to_property_key it.1) <$> rev todo) ++ placed) U' p'.
Proof.
  intros Hkeys Hplain.
  induction todo as [|[k vs] todo IH]; intros placed U p Hpl Hsub Hnd Hall.
  - exists p, U. split; [reflexivity|exact Hpl].
  - apply Forall_cons in Hall as [[Hk Hit] Hall]. simpl in Hk.
    simpl in Hnd. rewrite fmap_app, <- app_assoc in Hnd. simpl in Hnd.
    assert (Hnot : to_property_key k ∉ placed).
    { apply NoDup_app in Hnd as (_ & _ & Hnd). apply NoDup_cons in Hnd. tauto. }
    destruct (place_step keys render j ks its p0 placed U p k vs
                Hkeys Hplain Hpl Hsub Hk Hnot Hit)
      as (cur & p1 & Hplace & Hpl1).
    destruct (IH (to_property_key k :: placed) (cur :: U) p1 Hpl1) as (p' & U' & Hrest & Hpl');
      auto.
    exists p', U'. split.
    + rewrite place_all_cons. unfold bind at 1. rewrite Hplace. exact Hrest.
    + simpl. rewrite fmap_app, <- app_assoc. exact Hpl'.
Qed.

(** *** Catching strays *)

Lemma for_each_remove_stray j : forall (l : list (string * Node)) p,
  for_each (remove_stray j) l p
  = Ret tt (mkPass (foldl (fun cs kn => detach kn.2 cs) (children p) l)
                   (foldl (fun b kn => delete kn.1 b) (bound p) l)
                   (foldl (fun b kn => delete kn.1 b) (selObs p) l)
                   (events p ++ ((fun kn => Dom j (Remove (nid kn.2))) <$> l))
                   (fresh_id p)).
Proof.
  induction l as [|kn l IH]; intros p; simpl.
  - unfold ret. rewrite app_nil_r. destruct p; reflexivity.
  - unfold bind at 1. unfold remove_stray at 1. rewrite IH. simpl.
    rewrite <- app_assoc. reflexivity.
Qed.

Lemma foldl_detach_app (l : list (string * Node)) : forall L U,
  foldl (fun cs kn => detach kn.2 cs) (L ++ U) l
  = foldl (fun cs kn => detach kn.2 cs) L l ++ foldl (fun cs kn => detach kn.2 cs) U l.
Proof.
  induction l as [|kn l IH]; intros L U; simpl; [reflexivity|].
  rewrite detach_app. apply IH.
Qed.

Lemma foldl_detach_elem (l : list (string * Node)) : forall cs x,
  x ∈ foldl (fun cs kn => detach kn.2 cs) cs l <->
  x ∈ cs /\ nid x ∉ nid <$> l.*2.
Proof.
  induction l as [|kn l IH]; intros cs x; simpl.
  - rewrite elem_of_nil. tauto.
  - rewrite IH, elem_of_detach, not_elem_of_cons. tauto.
Qed.

Lemma foldl_detach_keep (l : list (string * Node)) : forall U,
  (forall u, u ∈ U -> nid u ∉ nid <$> l.*2) ->
  foldl (fun cs kn => detach kn.2 cs) U l = U.
Proof.
  induction l as [|kn l IH]; intros U H; simpl; [reflexivity|].
  rewrite detach_absent.
  - apply IH. intros u Hu. specialize (H u Hu). simpl in H.
    apply not_elem_of_cons in H. tauto.
  - intros Hin. apply list_elem_of_fmap in Hin as (u & Hid & Hu).
    specialize (H u Hu). simpl in H. apply not_elem_of_cons in H. destruct H as [H _].
    congruence.
Qed.

Lemma foldl_detach_all (l : list (string * Node)) L :
  (forall x, x ∈ L -> nid x ∈ nid <$> l.*2) ->
  foldl (fun cs kn => detach kn.2 cs) L l = [].
Proof.
  intros H.
  destruct (foldl (fun cs kn => detach kn.2 cs) L l) as [|x xs] eqn:E; [reflexivity|].
  assert (Hx : x ∈ foldl (fun cs kn => detach kn.2 cs) L l) by (rewrite E; left).
  apply foldl_detach_elem in Hx as [Hx Hnot]. exfalso. apply Hnot, H, Hx.
Qed.

Lemma foldl_delete_lookup {V} (l : list (string * Node)) : forall (b : gmap string V) k,
  foldl (fun b kn => delete kn.1 b) b l !! k
  = if decide (k ∈ l.*1) then None else b !! k.
Proof.
  induction l as [|kn l IH]; intros b k; simpl.
  - destruct (decide (k ∈ [])) as [H|_]; [|reflexivity]. apply elem_of_nil in H. contradiction.
  - rewrite IH. destruct (decide (k ∈ l.*1)) as [Hin|Hout].
    + rewrite decide_True by (right; exact Hin). reflexivity.
    + destruct (decide (k = kn.1)) as [->|Hne].
      * rewrite decide_True by left. apply lookup_delete_eq.
      * rewrite decide_False by (rewrite not_elem_of_cons; tauto).
        apply lookup_delete_ne. congruence.
Qed.

Lemma catch_strays_spec keys j (ks : list string) its p0 U p :
  (forall k, is_Some (keys !! k) <-> k ∈ ks) ->
  NoDup ks ->
  placing ks its p0 ks U p ->
  exists p',
    catch_strays keys j p = Ret tt p' /\
    synced ks p' /\ children p' = U /\
    (forall k, k ∈ ks -> bound p' !! k = bound p !! k) /\
    fresh_id p' = fresh_id p /\
    (exists evs, events p' = events p ++ evs /\ Forall (pass_event its p0) evs).
Proof.
  intros Hkeys Hnd [Hm [L Hcs] Hunits Hreuse _ _].
  unfold catch_strays. rewrite for_each_remove_stray.
  set (l := filter (fun kn : string * Node => defined_in keys kn.1 = false)
              (map_to_list (bound p))).
  assert (Hl : forall k n, (k, n) ∈ l <-> bound p !! k = Some n /\ keys !! k = None).
  { intros k n. subst l. rewrite list_elem_of_filter, elem_of_map_to_list. simpl.
    split; intros [H1 H2].
    - split; [exact H2|]. apply defined_in_false in H1. tauto.
    - split; [|exact H1]. apply defined_in_none; [|exact H2].
      apply (managed_plain p Hm). eauto. }
  assert (HU : forall u, u ∈ U -> exists k, k ∈ ks /\ bound p !! k = Some u).
  { intros u Hu. apply list_elem_of_lookup in Hu as [i Hi].
    destruct (Forall2_lookup_r _ _ _ _ _ Hunits Hi) as (k & Hk & Hb).
    exists k. split; [eapply list_elem_of_lookup_2, Hk|exact Hb]. }
  assert (Hkey : forall k, k ∈ ks -> k ∉ l.*1).
  { intros k Hk Hin. apply list_elem_of_fmap in Hin as ([k' n] & -> & Hkn).
    apply Hl in Hkn as [_ Hnone]. simpl in Hk. apply Hkeys in Hk.
    rewrite Hnone in Hk. destruct Hk. discriminate. }
  assert (Hkeep : foldl (fun cs kn => detach kn.2 cs) U l = U).
  { apply foldl_detach_keep. intros u Hu Hin.
    destruct (HU u Hu) as (k & Hk & Hb).
    apply list_elem_of_fmap in Hin as (n & Hid & Hn).
    apply list_elem_of_fmap in Hn as ([k' n'] & -> & Hkn). simpl in Hid.
    pose proof Hkn as Hkn'. apply Hl in Hkn as [Hb' Hnone].
    assert (k = k') by (eapply (managed_inj p Hm); eauto). subst k'.
    apply (Hkey k Hk). apply list_elem_of_fmap. exists (k, n'). auto. }
  assert (Hgone : foldl (fun cs kn => detach kn.2 cs) L l = []).
  { apply foldl_detach_all. intros x Hx.
    assert (Hxc : x ∈ children p) by (rewrite Hcs; apply elem_of_app; left; exact Hx).
    pose proof (managed_children p Hm x Hxc) as Hb.
    apply list_elem_of_fmap. exists x. split; [reflexivity|].
    apply list_elem_of_fmap. exists (to_property_key (key x), x). split; [reflexivity|].
    apply Hl. split; [exact Hb|].
    destruct (keys !! to_property_key (key x)) as [i|] eqn:E; [|reflexivity].
    exfalso. assert (Hk : to_property_key (key x) ∈ ks) by (apply Hkeys; eauto).
    apply list_elem_of_lookup in Hk as [i' Hi'].
    destruct (Forall2_lookup_l _ _ _ _ _ Hunits Hi') as (u & Hu & Hbu).
    assert (x = u) by congruence. subst u.
    pose proof (managed_nodup p Hm) as Hnd'. rewrite Hcs, fmap_app in Hnd'.
    apply NoDup_app in Hnd' as (_ & Hdisj & _).
    apply (Hdisj (nid x)); apply list_elem_of_fmap; exists x; split; auto.
    eapply list_elem_of_lookup_2, Hu. }
  assert (Hlook : forall k, k ∈ ks ->
            foldl (fun b kn => delete kn.1 b) (bound p) l !! k = bound p !! k).
  { intros k Hk. rewrite foldl_delete_lookup, decide_False; auto. }
  assert (Hsubmap : forall k n,
            foldl (fun b kn => delete kn.1 b) (bound p) l !! k = Some n ->
            bound p !! k = Some n /\ k ∈ ks).
  { intros k n. rewrite foldl_delete_lookup.
    destruct (decide (k ∈ l.*1)) as [_|Hout]; [discriminate|].
    intros Hb. split; [exact Hb|]. apply Hkeys.
    destruct (keys !! k) as [i|] eqn:E; [eauto|].
    exfalso. apply Hout. apply list_elem_of_fmap. exists (k, n). split; [reflexivity|].
    apply Hl. auto. }
  eexists. split; [reflexivity|]. simpl.
  rewrite Hcs, foldl_detach_app, Hgone, Hkeep. simpl.
  split; [|split; [reflexivity|split; [exact Hlook|split; [reflexivity|]]]].
  - split; simpl.
    + exact Hnd.
    + split; simpl.
      * pose proof (managed_nodup p Hm) as Hnd'. rewrite Hcs, fmap_app in Hnd'.
        apply NoDup_app in Hnd'. tauto.
      * intros n Hn. destruct (HU n Hn) as (k & Hk & Hb).
        destruct (managed_tags p Hm k n Hb) as [-> _].
        rewrite Hlook by exact Hk. exact Hb.
      * intros k n Hb. apply Hsubmap in Hb as [Hb _]. apply (managed_tags p Hm), Hb.
      * intros k1 k2 n1 n2 H1 H2. apply Hsubmap in H1 as [H1 _].
        apply Hsubmap in H2 as [H2 _]. apply (managed_inj p Hm); auto.
      * intros k [n Hb]. apply Hsubmap in Hb as [Hb _]. apply (managed_plain p Hm). eauto.
    + eapply Forall2_impl_elem; [exact Hunits|]. intros k n Hk _ Hb. simpl.
      rewrite Hlook by exact Hk. exact Hb.
    + intros k [n Hb]. apply Hsubmap in Hb. tauto.
  - eexists. split; [reflexivity|]. apply Forall_forall. intros e He.
    apply list_elem_of_fmap in He as (kn & -> & _). exact I.
Qed.

(** The pass over any managed parent: it returns, the parent then shows
    the keys in order, a key that had a unit keeps it, and units are only
    rendered for keys that had none. *)
Lemma pass_syncs keys render j its p :
  let ks := (fun it : value * value => to_property_key it.1) <$> its in
  (forall k, is_Some (keys !! k) <-> k ∈ ks) ->
  NoDup ks -> plain ks -> managed p ->
  exists p',
    (place_all keys render j None (rev its) >> catch_strays keys j) p = Ret tt p' /\
    synced ks p' /\
    (forall k n, k ∈ ks -> bound p !! k = Some n -> bound p' !! k = Some n) /\
    fresh_id p <= fresh_id p' /\
    (exists evs, events p' = events p ++ evs /\ Forall (pass_event its p) evs).
Proof.
  intros ks Hkeys Hnd Hplain Hm.
  assert (Hstart : placing ks its p [] [] p).
  { apply mkPlacing.
    - exact Hm.
    - exists (children p). rewrite app_nil_r. reflexivity.
    - constructor.
    - auto.
    - lia.
    - exists []. rewrite app_nil_r. split; [reflexivity|constructor]. }
  destruct (place_all_spec keys render j ks its p Hkeys Hplain (rev its) [] [] p Hstart)
    as (p1 & U & Hplace & Hpl).
  - constructor.
  - rewrite rev_involutive, app_nil_r. exact Hnd.
  - apply Forall_forall. intros it Hit.
    apply list_elem_of_In, in_rev, list_elem_of_In in Hit.
    split; [|exact Hit]. subst ks. apply list_elem_of_fmap. eauto.
  - rewrite rev_involutive, app_nil_r in Hpl. fold ks in Hpl.
    destruct (catch_strays_spec keys j ks its p U p1 Hkeys Hnd Hpl)
      as (p' & Hcatch & Hsync & _ & Hkeep & Hfresh & evs & Hev & Hevs).
    exists p'. split; [unfold bind; simpl in Hplace; rewrite Hplace; exact Hcatch|].
    split; [exact Hsync|].
    destruct Hpl as [Hm1 _ _ Hreuse Hmono (evs1 & Hev1 & Hevs1)].
    split; [intros k n Hk Hb; rewrite Hkeep by exact Hk; auto|].
    split; [rewrite Hfresh; exact Hmono|].
    exists (evs1 ++ evs). rewrite Hev, Hev1, <- app_assoc. split; [reflexivity|].
    apply Forall_app. auto.
Qed.

(** ** A pass over a world whose parents are managed *)

Lemma managed_mono c b s e n s' e' n' :
  managed (mkPass c b s e n) -> n <= n' -> managed (mkPass c b s' e' n').
Proof.
  intros [H1 H2 H3 H4 H5] Hle. split; simpl in *; auto.
  intros k x Hk. destruct (H3 k x Hk). split; [assumption|lia].
Qed.

Lemma synced_mono ks c b s e n s' e' n' :
  synced ks (mkPass c b s e n) -> n <= n' -> synced ks (mkPass c b s' e' n').
Proof.
  intros [H1 H2 H3 H4] Hle. split; simpl in *; auto. eapply managed_mono; eauto.
Qed.

Lemma synced_empty s e n : synced [] (mkPass [] ∅ s e n).
Proof.
  split; simpl.
  - constructor.
  - split; simpl.
    + constructor.
    + intros x Hx. apply elem_of_nil in Hx. contradiction.
    + intros k x Hk. rewrite lookup_empty in Hk. discriminate.
    + intros k1 k2 n1 n2 Hk. rewrite lookup_empty in Hk. discriminate.
    + intros k [x Hk]. rewrite lookup_empty in Hk. discriminate.
  - constructor.
  - intros k [x Hk]. rewrite lookup_empty in Hk. discriminate.
Qed.

Lemma zip_keys mk (items states : list value) :
  length items = length states ->
  (fun it : value * value => to_property_key it.1) <$> zip (raw_keys mk items) states
  = keys_of mk items.
Proof.
  revert states. induction items as [|v items IH]; intros [|s states] Hlen;
    simpl in *; try discriminate; [reflexivity|].
  f_equal. apply IH. lia.
Qed.

Lemma index_keys_dom mk items k :
  is_Some (index_keys mk items 0 ∅ !! k) <-> k ∈ keys_of mk items.
Proof.
  rewrite index_keys_lookup, lookup_empty. split; [|auto].
  intros [[x Hx]|H]; [discriminate|exact H].
Qed.

Lemma arrangeElements_syncs st j old w bc items :
  bindContexts (ctx w) !! j = Some bc ->
  currentValue (ctx w) = VArr items ->
  NoDup (keys_of (mapKey (ctx w)) items) ->
  plain (keys_of (mapKey (ctx w)) items) ->
  managed (pass_of w bc) ->
  exists p',
    arrangeElements st j old w = Ret tt (world_of j bc p' (after_keys [] items [] w)) /\
    synced (keys_of (mapKey (ctx w)) items) p' /\
    (forall k n, k ∈ keys_of (mapKey (ctx w)) items ->
                 boundElementByKey bc !! k = Some n -> bound p' !! k = Some n) /\
    next_node w <= fresh_id p' /\
    (items = [] -> selObs p' = ∅) /\
    (exists evs,
        events p' = trace w ++ evs /\
        Forall (pass_event (zip (raw_keys (mapKey (ctx w)) items)
                                (wrapped (next_state w) items))
                           (pass_of w bc)) evs).
Proof.
  intros Hbc Hcur Hnd Hplain Hm.
  unfold arrangeElements. unfold bind at 1, gets at 1. rewrite Hcur. simpl.
  destruct items as [|v items'] eqn:Hitems.
  - rewrite after_keys_id by (simpl; auto).
    eexists. split.
    + unfold with_pass. rewrite Hbc. unfold clear_all, modify. reflexivity.
    + simpl. split; [apply synced_empty|].
      split; [intros k n Hk; apply elem_of_nil in Hk; contradiction|].
      split; [lia|]. split; [reflexivity|].
      destruct (parent bc) as [|c cs].
      * exists []. rewrite app_nil_r. split; [reflexivity|constructor].
      * eexists. split; [reflexivity|]. constructor; [exact I|constructor].
  - assert (Hne : items <> []) by (rewrite Hitems; discriminate).
    cbv beta iota. rewrite <- Hitems in *. clear Hitems v items'.
    set (mk := mapKey (ctx w)) in *.
    unfold bind at 1. rewrite (compute_keys_all st old mk items w eq_refl Hcur Hnd Hplain).
    set (w1 := after_keys [] items [] w).
    unfold bind at 1, gets at 1. unfold bind at 1, gets at 1.
    assert (Hbc1 : bindContexts (ctx w1) !! j = Some bc) by exact Hbc.
    assert (Hp1 : pass_of w1 bc = pass_of w bc) by reflexivity.
    assert (Hst1 : array_items (currentValue (ctx w1)) = wrapped (next_state w) items).
    { subst w1. unfold after_keys. simpl. rewrite app_nil_r. reflexivity. }
    rewrite Hst1, Hbc1.
    destruct (pass_syncs (index_keys mk items 0 ∅) (element bc) j
                (zip (raw_keys mk items) (wrapped (next_state w) items)) (pass_of w bc))
      as (p' & Hpass & Hsync & Hreuse & Hfresh & Hev).
    + intros k. rewrite zip_keys by (rewrite length_wrapped; reflexivity).
      apply index_keys_dom.
    + rewrite zip_keys by (rewrite length_wrapped; reflexivity). exact Hnd.
    + rewrite zip_keys by (rewrite length_wrapped; reflexivity). exact Hplain.
    + exact Hm.
    + rewrite zip_keys in Hsync, Hreuse by (rewrite length_wrapped; reflexivity).
      exists p'. split.
      * unfold with_pass. rewrite Hbc1, Hp1, Hpass. reflexivity.
      * split; [exact Hsync|]. split; [exact Hreuse|]. split; [exact Hfresh|].
        split; [|exact Hev].
        intros Hnil. contradiction.
Qed.

Lemma pass_of_world_of j bc p w :
  j < length (bindContexts (ctx w)) ->
  exists bc', bindContexts (ctx (world_of j bc p w)) !! j = Some bc' /\
              pass_of (world_of j bc p w) bc' = p /\
              boundElementByKey bc' = bound p /\ parent bc' = children p.
Proof.
  intros Hj. eexists. split.
  - unfold world_of. simpl. apply list_lookup_insert_eq. exact Hj.
  - unfold pass_of, world_of. simpl. destruct p. auto.
Qed.

Lemma zip_wrapped_event mk n items k valueState :
  (k, valueState) ∈ zip (raw_keys mk items) (wrapped n items) ->
  to_property_key k = item_key mk valueState.
Proof.
  rewrite <- (raw_keys_wrapped mk items n), zip_raw_keys.
  intros H. apply list_elem_of_fmap in H as (v & Heq & _).
  injection Heq as -> ->. reflexivity.
Qed.

Lemma reconciling_step st old w0 ks a w :
  NoDup ks -> plain ks ->
  reconciling w0 ks a w -> a < length (bindContexts (ctx w0)) ->
  exists w', arrangeElements st a old w = Ret tt w' /\ reconciling w0 ks (S a) w'.
Proof.
  intros Hnd Hplain [Hreg Hlen (items & Hcur & Hks & Hstates) Hdone Htodo Hreuse
                (evs & Htr & Hevs) Hnodes] Ha.
  destruct (lookup_lt_is_Some_2 _ _ Ha) as [bc Hbc0].
  destruct (Htodo a bc (le_n a) Hbc0) as [Hbc Hm].
  pose proof Hreg as (Hid & Hobs & Hnext & Hmk & Hsel & Htok & Hrej).
  destruct (arrangeElements_syncs st a old w bc items Hbc Hcur) as
    (p' & Harr & Hsync & Hkeep & Hfresh & Hempty & evs' & Hev' & Hevs'); auto.
  { rewrite Hmk, Hks. exact Hnd. }
  { rewrite Hmk, Hks. exact Hplain. }
  rewrite Hmk, Hks in Hsync, Hkeep.
  set (w1 := after_keys [] items [] w) in *.
  assert (Ha1 : a < length (bindContexts (ctx w1))) by (simpl; lia).
  destruct (pass_of_world_of a bc p' w1 Ha1) as (bc' & Hbc' & Hpass' & Hbound' & Hparent').
  exists (world_of a bc p' w1). split; [exact Harr|].
  assert (Hother : forall j, j <> a ->
            bindContexts (ctx (world_of a bc p' w1)) !! j = bindContexts (ctx w) !! j).
  { intros j Hj. unfold world_of. simpl. apply list_lookup_insert_ne. congruence. }
  split.
  - repeat split; simpl; auto.
  - unfold world_of. simpl. rewrite length_insert. exact Hlen.
  - exists (wrapped (next_state w) items).
    split; [subst w1; unfold world_of, after_keys; simpl; rewrite app_nil_r; reflexivity|].
    rewrite keys_of_wrapped. split; [exact Hks|]. intros _. split.
    + apply forallb_forall. intros v Hv. apply list_elem_of_In in Hv.
      pose proof (wrapped_states items (next_state w)) as Hall.
      rewrite Forall_forall in Hall. auto.
    + intros Hnil. simpl. apply Hempty.
      destruct items; [reflexivity|]. simpl in Hnil. destruct (isFnState v); discriminate.
  - intros j bcj Hj Hbcj. destruct (decide (j = a)) as [->|Hne].
    + rewrite Hbc' in Hbcj. injection Hbcj as <-. rewrite Hpass'. exact Hsync.
    + rewrite Hother in Hbcj by exact Hne.
      assert (Hs : synced ks (pass_of w bcj)) by (apply (Hdone j); [lia|exact Hbcj]).
      unfold pass_of in *. eapply synced_mono; [exact Hs|]. simpl. exact Hfresh.
  - intros j bcj Hj Hbcj. rewrite Hother by lia.
    destruct (Htodo j bcj) as [Hl Hmj]; [lia|exact Hbcj|]. split; [exact Hl|].
    unfold pass_of in *. eapply managed_mono; [exact Hmj|]. simpl. exact Hfresh.
  - intros j bc0 bcj k n Hbc0' Hbcj Hk Hb. destruct (decide (j = a)) as [->|Hne].
    + rewrite Hbc' in Hbcj. injection Hbcj as <-. rewrite Hbound'.
      apply Hkeep; [exact Hk|]. eapply Hreuse; eauto.
    + rewrite Hother in Hbcj by exact Hne. eapply Hreuse; eauto.
  - exists (evs ++ evs'). split; [simpl; rewrite Hev', Htr, <- app_assoc; reflexivity|].
    apply Forall_app. split; [exact Hevs|].
    eapply Forall_impl; [exact Hevs'|]. intros e He.
    destruct e; simpl in *; auto.
    destruct He as (k & Hk & Hnone).
    pose proof (zip_wrapped_event _ _ _ _ _ Hk) as Hkey. rewrite Hmk in Hkey.
    rewrite <- Hkey. split.
    + rewrite <- Hks. apply elem_of_zip_l in Hk. unfold raw_keys in Hk.
      apply list_elem_of_fmap in Hk as (v & -> & Hv). rewrite <- Hmk.
      apply list_elem_of_fmap. exists v. auto.
    + exists a, bc. split; [exact Hbc0|exact Hnone].
  - simpl. lia.
Qed.

Lemma reconciling_loop st old w0 ks : forall m a w,
  NoDup ks -> plain ks ->
  reconciling w0 ks a w -> a + m = length (bindContexts (ctx w0)) ->
  exists w', for_each (fun j => arrangeElements st j old) (seq a m) w = Ret tt w' /\
             reconciling w0 ks (a + m) w'.
Proof.
  induction m as [|m IH]; intros a w Hnd Hplain Hrec Ham.
  - exists w. rewrite Nat.add_0_r. split; [reflexivity|exact Hrec].
  - destruct (reconciling_step st old w0 ks a w Hnd Hplain Hrec) as (w1 & Harr & Hrec1); [lia|].
    destruct (IH (S a) w1 Hnd Hplain Hrec1) as (w' & Hloop & Hrec'); [lia|].
    exists w'. split.
    + simpl. unfold bind. rewrite Harr. exact Hloop.
    + replace (a + S m) with (S a + m) by lia. exact Hrec'.
Qed.

Lemma reconciling_start w items :
  currentValue (ctx w) = VArr items ->
  (forall j bc, bindContexts (ctx w) !! j = Some bc -> managed (pass_of w bc)) ->
  reconciling w (keys_of (mapKey (ctx w)) items) 0 w.
Proof.
  intros Hcur Hm. apply mkReconciling.
  - repeat split.
  - reflexivity.
  - exists items. split; [exact Hcur|]. split; [reflexivity|]. intros H. lia.
  - intros j bc Hj. lia.
  - intros j bc _ Hj. split; [exact Hj|apply (Hm j), Hj].
  - intros j bc bc' k n H1 H2. congruence.
  - exists []. rewrite app_nil_r. split; [reflexivity|constructor].
  - lia.
Qed.

(** The pass over every bind context of a managed world returns, and
    leaves every parent showing the array. *)
Lemma reconcile_syncs st old w items :
  currentValue (ctx w) = VArr items ->
  NoDup (keys_of (mapKey (ctx w)) items) ->
  plain (keys_of (mapKey (ctx w)) items) ->
  (forall j bc, bindContexts (ctx w) !! j = Some bc -> managed (pass_of w bc)) ->
  exists w', reconcile st old w = Ret tt w' /\
             reconciling w (keys_of (mapKey (ctx w)) items)
                         (length (bindContexts (ctx w))) w'.
Proof.
  intros Hcur Hnd Hplain Hm. unfold reconcile. unfold bind at 1, gets at 1.
  apply (reconciling_loop st old w _ (length (bindContexts (ctx w))) 0 w Hnd Hplain).
  - apply reconciling_start; assumption.
  - reflexivity.
Qed.

Lemma reconciling_in_sync w0 ks w :
  reconciling w0 ks (length (bindContexts (ctx w0))) w ->
  bindContexts (ctx w0) <> [] ->
  in_sync_facts w.
Proof.
  intros [Hreg Hlen (items & Hcur & Hks & Hstates) Hdone _ _ _ _] Hne.
  assert (Hpos : 0 < length (bindContexts (ctx w0))).
  { destruct (bindContexts (ctx w0)); [congruence|simpl; lia]. }
  destruct (Hstates Hpos) as [Hst Hsel].
  destruct Hreg as (_ & _ & _ & Hmk & _).
  split; rewrite Hcur; simpl; auto.
  intros j bc Hj. rewrite Hmk, Hks. apply (Hdone j); [|exact Hj].
  apply lookup_lt_Some in Hj. lia.
Qed.


Lemma well_managed_spec w :
  well_managed w = true ->
  forall j bc, bindContexts (ctx w) !! j = Some bc -> managed (pass_of w bc).
Proof.
  unfold well_managed. rewrite forallb_forall. intros H j bc Hj.
  apply list_elem_of_lookup_2, list_elem_of_In, H in Hj.
  apply is_managed_spec, Hj.
Qed.



(** ** [set] with an array of distinct keys *)

Lemma set_event_notifications w0 ks v old l :
  Forall (set_event w0 ks) (notifications v old l).
Proof. apply Forall_forall. intros e He. apply list_elem_of_fmap in He as (o & -> & _). exact I. Qed.

Lemma reconciled_notified w0 ks w v old l :
  reconciled w0 ks w -> reconciled w0 ks (set_trace (trace w ++ notifications v old l) w).
Proof.
  intros [Hreg Hsync Hkeys Hlen Hreuse (evs & Htr & Hevs)]. split; simpl; auto.
  - eapply in_sync_frame; [exact Hsync|reflexivity|reflexivity].
  - exists (evs ++ notifications v old l). rewrite Htr, <- app_assoc.
    split; [reflexivity|]. apply Forall_app. split; [exact Hevs|].
    apply set_event_notifications.
Qed.

(** The reconciliation started in a world that differs from [w0] by
    notifications in its trace. *)
Lemma reconciled_of_reconciling w0 ks wa wr ns :
  wa = set_trace (trace w0 ++ ns) w0 ->
  Forall (set_event w0 ks) ns ->
  bindContexts (ctx w0) <> [] ->
  reconciling wa ks (length (bindContexts (ctx wa))) wr ->
  reconciled w0 ks wr.
Proof.
  intros -> Hns Hne Hrec.
  pose proof (reconciling_in_sync _ _ _ Hrec Hne) as Hsync.
  destruct Hrec as [Hreg Hlen (items & Hcur & Hks & _) _ _ Hreuse (evs & Htr & Hevs) _].
  simpl in *. split; auto.
  - rewrite Hcur. exact Hks.
  - exists (ns ++ evs). rewrite Htr, <- app_assoc. split; [reflexivity|].
    apply Forall_app. split; [exact Hns|].
    eapply Forall_impl; [exact Hevs|]. intros e He. destruct e; simpl in *; auto.
Qed.

Lemma notify_reconciles behave fuel v old w0 items :
  (forall l n o w', behave l n o w' = Ret tt w') ->
  currentValue (ctx w0) = VArr items ->
  NoDup (keys_of (mapKey (ctx w0)) items) ->
  plain (keys_of (mapKey (ctx w0)) items) ->
  (forall j bc, bindContexts (ctx w0) !! j = Some bc -> managed (pass_of w0 bc)) ->
  bindContexts (ctx w0) <> [] ->
  forall steps i ns,
    Forall (set_event w0 (keys_of (mapKey (ctx w0)) items)) ns ->
    (exists i' o, i <= i' /\ observers (ctx w0) !! i' = Some o /\ is_user o = false) ->
    length (observers (ctx w0)) - i < steps ->
    exists w',
      notify behave (state behave fuel) steps i v old (set_trace (trace w0 ++ ns) w0)
      = Ret tt w' /\
      reconciled w0 (keys_of (mapKey (ctx w0)) items) w'.
Proof.
  intros Hin Hcur Hnd Hplain Hm Hne.
  induction steps as [|steps IH]; intros i ns Hns Hex Hsteps; [lia|].
  set (w := set_trace (trace w0 ++ ns) w0).
  destruct (observers (ctx w0) !! i) as [o|] eqn:Hi.
  - rewrite (notify_step _ _ _ _ _ _ _ o) by exact Hi.
    unfold bind at 1. unfold call_observer. unfold bind at 1, log_event, modify.
    set (w1 := set_trace _ w).
    assert (Hw1 : w1 = set_trace (trace w0 ++ (ns ++ [Notified (obs_id o) v old])) w0).
    { subst w1 w. simpl. rewrite <- app_assoc. reflexivity. }
    assert (Hns1 : Forall (set_event w0 (keys_of (mapKey (ctx w0)) items))
                          (ns ++ [Notified (obs_id o) v old])).
    { apply Forall_app. split; [exact Hns|]. constructor; [exact I|constructor]. }
    destruct (obs_fn o) as [l|] eqn:Hfn.
    + rewrite Hin. rewrite Hw1. apply IH; auto.
      * destruct Hex as (i' & o' & Hle & Hi' & Hu).
        exists i', o'. repeat split; auto.
        destruct (decide (i' = i)) as [->|Hneq]; [|lia].
        rewrite Hi in Hi'. injection Hi' as <-. unfold is_user in Hu.
        rewrite Hfn in Hu. discriminate.
      * apply lookup_lt_Some in Hi. lia.
    + unfold reconcile_observer. unfold bind at 1, gets at 1.
      assert (Hcur1 : currentValue (ctx w1) = VArr items) by exact Hcur.
      rewrite Hcur1. simpl.
      destruct (reconcile_syncs (state behave fuel) old w1 items Hcur1) as (wr & Hrec & Hsync).
      * exact Hnd.
      * exact Hplain.
      * intros j bc Hj. specialize (Hm j bc Hj). unfold pass_of in *.
        eapply managed_frame, Hm.
      * rewrite Hrec.
        assert (Hred : reconciled w0 (keys_of (mapKey (ctx w0)) items) wr).
        { eapply reconciled_of_reconciling; [exact Hw1|exact Hns1|exact Hne|exact Hsync]. }
        rewrite (notify_in_sync behave _ v old Hin).
        -- eexists. split; [reflexivity|]. apply reconciled_notified, Hred.
        -- apply Hred.
        -- destruct Hred as [(_ & Hobs & _) _ _ _ _ _]. rewrite Hobs.
           apply lookup_lt_Some in Hi. lia.
  - exfalso. destruct Hex as (i' & o' & Hle & Hi' & _).
    apply lookup_ge_None in Hi. apply lookup_lt_Some in Hi'. lia.
Qed.

(** [set] with an array of distinct keys on a bound, managed container
    returns the array, with every parent reconciled. *)
Lemma set_reconciles behave fuel w items :
  (forall l n o w', behave l n o w' = Ret tt w') ->
  well_managed w = true ->
  NoDup (keys_of (mapKey (ctx w)) items) ->
  plain (keys_of (mapKey (ctx w)) items) ->
  bindContexts (ctx w) <> [] ->
  existsb (fun o => negb (is_user o)) (observers (ctx w)) = true ->
  length (observers (ctx w)) + 2 <= fuel ->
  exists w',
    state behave fuel [VArr items] w = Ret (VArr items) w' /\
    reconciled (with_value (VArr items) w) (keys_of (mapKey (ctx w)) items) w'.
Proof.
  intros Hin Hm Hnd Hplain Hne Hrec Hfuel.
  destruct fuel as [|fuel]; [lia|].
  rewrite state_write_unfold by reflexivity.
  apply existsb_exists in Hrec as (o & Ho & Hu).
  apply list_elem_of_In, list_elem_of_lookup in Ho as [i Hi].
  apply negb_true_iff in Hu.
  pose proof (well_managed_spec w Hm) as Hman.
  destruct (notify_reconciles behave fuel (VArr items) (currentValue (ctx w))
              (with_value (VArr items) w) items Hin eq_refl Hnd Hplain) with
    (steps := fuel) (i := 0) (ns := @nil event) as (w' & Hnot & Hred).
  - intros j bc Hj. specialize (Hman j bc Hj). unfold pass_of in *. exact Hman.
  - exact Hne.
  - constructor.
  - exists i, o. repeat split; auto. lia.
  - simpl. lia.
  - exists w'. split; [|exact Hred].
    unfold bind. fold (with_value (VArr items) w).
    replace (with_value (VArr items) w)
      with (set_trace (trace (with_value (VArr items) w) ++ []) (with_value (VArr items) w))
      by (rewrite app_nil_r; apply set_trace_id).
    rewrite Hnot. reflexivity.
Qed.

(** ** Reordering *)

Lemma in_sync_well_managed w : in_sync w = true -> well_managed w = true.
Proof.
  unfold in_sync, well_managed. intros H.
  apply andb_prop in H as [H _]. apply andb_prop in H as [_ H].
  rewrite forallb_forall in *. intros bc Hbc. specialize (H bc Hbc).
  unfold is_synced in H. do 4 (apply andb_prop in H as [H _]). exact H.
Qed.

Lemma synced_bound ks p k : synced ks p -> k ∈ ks -> is_Some (bound p !! k).
Proof.
  intros Hs Hk. apply list_elem_of_lookup in Hk as [i Hi].
  destruct (Forall2_lookup_l _ _ _ _ _ (synced_children ks p Hs) Hi) as (n & _ & Hn).
  eauto.
Qed.

Lemma renders_app t1 t2 : renders (t1 ++ t2) = renders t1 ++ renders t2.
Proof. apply List.filter_app. Qed.

Lemma renders_none (evs : list event) :
  Forall (fun e => forall n v, e <> Rendered n v) evs -> renders evs = [].
Proof.
  induction 1 as [|e evs He _ IH]; [reflexivity|].
  unfold renders in *. simpl. destruct e; auto. exfalso. eapply He. reflexivity.
Qed.

(** C3. A container bound to the items [a], [b], [c], shown by a parent
    as the units [ua], [ub], [uc], is set to the same items in the order
    [c], [a], [b].  The call returns, the parent then holds the very units
    [uc], [ua], [ub], in that order, and no unit was rendered.  (Observers
    other than the reconciler's are taken to return without touching the
    container.) *)
Theorem reorder_keeps_units behave fuel w ia ib ic j bc ua ub uc :
  (forall l n o w', behave l n o w' = Ret tt w') ->
  in_sync w = true ->
  currentValue (ctx w) = VArr [ia; ib; ic] ->
  bindContexts (ctx w) !! j = Some bc ->
  parent bc = [ua; ub; uc] ->
  existsb (fun o => negb (is_user o)) (observers (ctx w)) = true ->
  length (observers (ctx w)) + 2 <= fuel ->
  exists w' bc',
    state behave fuel [VArr [ic; ia; ib]] w = Ret (VArr [ic; ia; ib]) w' /\
    bindContexts (ctx w') !! j = Some bc' /\
    parent bc' = [uc; ua; ub] /\
    renders (trace w') = renders (trace w).
Proof.
  intros Hin Hsync Hcur Hbc Hparent Hrec Hfuel.
  pose proof (in_sync_well_managed w Hsync) as Hman.
  apply in_sync_spec in Hsync. destruct Hsync as [_ _ Hctx _].
  rewrite Hcur in Hctx. simpl in Hctx.
  set (mk := mapKey (ctx w)) in *.
  pose proof (Hctx j bc Hbc) as Hs.
  pose proof (synced_keys _ _ Hs) as Hnd.
  pose proof (synced_children _ _ Hs) as Hch. simpl in Hch. rewrite Hparent in Hch.
  apply Forall2_cons in Hch as [Ha Hch]. apply Forall2_cons in Hch as [Hb Hch].
  apply Forall2_cons in Hch as [Hc _].
  assert (Hnd' : NoDup (keys_of mk [ic; ia; ib])).
  { eapply NoDup_Permutation_proper; [|exact Hnd]. simpl.
    symmetry. apply (Permutation_app_comm [item_key mk ia; item_key mk ib] [item_key mk ic]). }
  assert (Hpl' : plain (keys_of mk [ic; ia; ib])).
  { pose proof (synced_plain _ _ Hs) as Hpl. unfold plain in *. simpl in *.
    rewrite !Forall_cons in *. tauto. }
  destruct (set_reconciles behave fuel w [ic; ia; ib] Hin Hman Hnd' Hpl')
    as (w' & Hset & Hred); auto.
  { intros Hnil. rewrite Hnil in Hbc. discriminate. }
  destruct Hred as [Hreg Hsync' Hkeys Hlen Hreuse (evs & Htr & Hevs)].
  assert (Hj : j < length (bindContexts (ctx w'))).
  { rewrite Hlen. simpl. apply lookup_lt_Some in Hbc. exact Hbc. }
  destruct (lookup_lt_is_Some_2 _ _ Hj) as [bc' Hbc'].
  exists w', bc'. split; [exact Hset|]. split; [exact Hbc'|].
  destruct Hreg as (_ & _ & _ & Hmk & _). simpl in Hmk, Hkeys.
  pose proof (sync_contexts _ Hsync' j bc' Hbc') as Hs'.
  rewrite Hmk in Hs'. fold mk in Hkeys, Hs'. rewrite Hkeys in Hs'.
  pose proof (synced_children _ _ Hs') as Hch'. simpl in Hch'.
  split.
  - destruct (parent bc') as [|n1 [|n2 [|n3 [|n4 rest]]]];
      try (exfalso; apply Forall2_length in Hch'; simpl in Hch'; lia).
    apply Forall2_cons in Hch' as [Hc' Hch']. apply Forall2_cons in Hch' as [Ha' Hch'].
    apply Forall2_cons in Hch' as [Hb' _].
    assert (Hmem : forall k, k ∈ keys_of mk [ic; ia; ib] <->
                             k = item_key mk ic \/ k = item_key mk ia \/ k = item_key mk ib).
    { intros k. simpl. rewrite !elem_of_cons, elem_of_nil. tauto. }
    rewrite (Hreuse j bc bc' (item_key mk ic) uc) in Hc'; auto; [|apply Hmem; auto].
    rewrite (Hreuse j bc bc' (item_key mk ia) ua) in Ha'; auto; [|apply Hmem; auto].
    rewrite (Hreuse j bc bc' (item_key mk ib) ub) in Hb'; auto; [|apply Hmem; auto].
    congruence.
  - rewrite Htr. simpl. rewrite renders_app, (renders_none evs), app_nil_r; [reflexivity|].
    eapply Forall_impl; [exact Hevs|]. intros e He n v ->. simpl in He.
    destruct He as (Hk & j0 & bc0 & Hbc0 & Hnone). simpl in Hbc0, Hk, Hnone.
    fold mk in Hk, Hnone.
    assert (Hk0 : item_key mk v ∈ keys_of mk [ia; ib; ic]).
    { simpl in *. rewrite !elem_of_cons, elem_of_nil in *. tauto. }
    destruct (synced_bound _ _ _ (Hctx j0 bc0 Hbc0) Hk0) as [x Hx].
    simpl in Hx. congruence.
Qed.

Lemma reorder_keeps_units_witness :
  let a := VState 1 (item "a") in
  let b := VState 2 (item "b") in
  let c := VState 3 (item "c") in
  let ua := mkNode 2 (VStr "a") true in
  let ub := mkNode 1 (VStr "b") true in
  let uc := mkNode 0 (VStr "c") true in
  exists w' bc',
    state inert_observer 5 [VArr [c; a; b]] world_abc_watched = Ret (VArr [c; a; b]) w' /\
    bindContexts (ctx w') !! 0 = Some bc' /\
    parent bc' = [uc; ua; ub] /\
    renders (trace w') = renders (trace world_abc_watched).
Proof.
  cbv zeta.
  apply (reorder_keeps_units inert_observer 5 world_abc_watched
           (VState 1 (item "a")) (VState 2 (item "b")) (VState 3 (item "c"))
           0 (mkBindContext (fun _ => true)
                [mkNode 2 (VStr "a") true; mkNode 1 (VStr "b") true; mkNode 0 (VStr "c") true]
                (boundElementByKey
                   (default (mkBindContext (fun _ => true) [] ∅)
                            (bindContexts (ctx world_abc_watched) !! 0))))).
  - intros l n o w'. reflexivity.
  - vm_compute. reflexivity.
  - vm_compute. reflexivity.
  - vm_compute. reflexivity.
  - reflexivity.
  - vm_compute. reflexivity.
  - vm_compute. lia.
Defined.

(** * Further properties of the container *)

(** ** [set] on a bound container *)

Lemma synced_shows ks p :
  synced ks p -> (fun n => to_property_key (key n)) <$> children p = ks.
Proof.
  intros [_ Hm Hch _]. induction Hch as [|k n ks cs Hk _ IH]; [reflexivity|].
  simpl. f_equal.
  - apply (managed_tags p Hm k n Hk).
  - exact IH.
Qed.






(** X3. [set([])] on a bound container returns, leaves every bound parent
    without children and every [boundElementByKey] without entries, and
    drops every selection callback of the container. *)
Theorem set_empty_array_clears behave fuel w :
  (forall l n o w', behave l n o w' = Ret tt w') ->
  well_managed w = true ->
  bindContexts (ctx w) <> [] ->
  existsb (fun o => negb (is_user o)) (observers (ctx w)) = true ->
  length (observers (ctx w)) + 2 <= fuel ->
  exists w',
    state behave fuel [VArr []] w = Ret (VArr []) w' /\
    selectObservers (ctx w') = ∅ /\
    length (bindContexts (ctx w')) = length (bindContexts (ctx w)) /\
    forall j bc', bindContexts (ctx w') !! j = Some bc' ->
                  parent bc' = [] /\ boundElementByKey bc' = ∅.
Proof.
  intros Hin Hm Hne Hrec Hfuel.
  destruct (set_reconciles behave fuel w [] Hin Hm) as (w' & Hset & Hred); auto.
  { constructor. }
  { constructor. }
  destruct Hred as [_ Hsync Hkeys Hlen _ _]. simpl in Hkeys.
  assert (Hnil : array_items (currentValue (ctx w')) = []).
  { destruct (array_items (currentValue (ctx w'))); [reflexivity|discriminate]. }
  exists w'. split; [exact Hset|]. split; [|split; [exact Hlen|]].
  - apply (sync_select _ Hsync Hnil). intros H. apply Hne.
    rewrite H in Hlen. simpl in Hlen. destruct (bindContexts (ctx w)); [reflexivity|discriminate].
  - intros j bc' Hbc'. pose proof (sync_contexts _ Hsync j bc' Hbc') as Hs.
    rewrite Hnil in Hs. simpl in Hs. split.
    + pose proof (synced_children _ _ Hs) as Hch. apply Forall2_nil_inv_l in Hch. exact Hch.
    + apply map_eq. intros k. rewrite lookup_empty.
      destruct (boundElementByKey bc' !! k) eqn:E; [|reflexivity].
      exfalso. eapply elem_of_nil, (synced_dom _ _ Hs). simpl. eauto.
Qed.

Lemma set_empty_array_clears_witness :
  exists w',
    state inert_observer 5 [VArr []] world_abc_watched = Ret (VArr []) w' /\
    selectObservers (ctx w') = ∅ /\
    length (bindContexts (ctx w')) = length (bindContexts (ctx world_abc_watched)) /\
    forall j bc', bindContexts (ctx w') !! j = Some bc' ->
                  parent bc' = [] /\ boundElementByKey bc' = ∅.
Proof.
  apply (set_empty_array_clears inert_observer 5 world_abc_watched).
  - intros l n o w'. reflexivity.
  - vm_compute. reflexivity.
  - vm_compute. discriminate.
  - vm_compute. reflexivity.
  - vm_compute. lia.
Defined.



(** ** [bindChildren] *)


(** Up to its first pass, [doBindChildren] on an array without [null] or
    [undefined] items: the world the pass starts in. *)
Lemma doBindChildren_start behave fuel cs render w items :
  currentValue (ctx w) = VArr items ->
  forallb has_properties items = true ->
  exists w1,
    doBindChildren behave fuel (Some cs) render w
    = (reconcile (state behave fuel) VUndef >> ret (length (bindContexts (ctx w)))) w1 /\
    currentValue (ctx w1) = VArr (wrapped (next_state w) items) /\
    mapKey (ctx w1) = installed (mapKey (ctx w)) /\
    bindContexts (ctx w1) = bindContexts (ctx w) ++ [mkBindContext render cs ∅] /\
    observers (ctx w1) = observers (ctx w) ++ [mkObserver (nextId (ctx w)) ReconcileFn] /\
    selectObservers (ctx w1) = selectObservers (ctx w) /\
    next_node w1 = next_node w /\
    dom_ops (trace w1) = dom_ops (trace w).
Proof.
  intros Hcur Hprops. unfold doBindChildren, installed.
  unfold bind at 1, gets at 1.
  destruct (is_function (mapKey (ctx w))) eqn:Hfn; simpl.
  - unfold bind at 1. unfold ret at 1.
    unfold bind at 1, gets at 1. rewrite Hcur. simpl.
    unfold bind at 1. rewrite wrap_items_wrapped by exact Hprops.
    unfold bind at 1. unfold modify_ctx at 1, modify at 1.
    unfold bind at 1, gets at 1. simpl.
    unfold bind at 1. unfold modify_ctx at 1, modify at 1.
    unfold bind at 1. unfold doSubscribe. simpl.
    eexists. split; [reflexivity|]. simpl. repeat split; reflexivity.
  - unfold bind at 1. unfold bind at 1, log_event, modify at 1.
    unfold modify_ctx at 1, modify at 1.
    unfold bind at 1, gets at 1. simpl. rewrite Hcur. simpl.
    unfold bind at 1. rewrite wrap_items_wrapped by exact Hprops.
    unfold bind at 1. unfold modify_ctx at 1, modify at 1.
    unfold bind at 1, gets at 1. simpl.
    unfold bind at 1. unfold modify_ctx at 1, modify at 1.
    unfold bind at 1. unfold doSubscribe. simpl.
    eexists. split; [reflexivity|]. simpl. repeat split; try reflexivity.
    rewrite dom_ops_app. simpl. apply app_nil_r.
Qed.






(** On an array of item states with a key the key loop rejects, the first
    pass of a bound container throws before it touches a parent; with no
    old state there is nothing to roll back to. *)
Lemma reconcile_rejects st w items :
  currentValue (ctx w) = VArr items ->
  forallb isFnState items = true ->
  ~ (NoDup (keys_of (mapKey (ctx w)) items) /\ plain (keys_of (mapKey (ctx w)) items)) ->
  bindContexts (ctx w) <> [] ->
  reconcile st VUndef w = Raise DuplicateKey w.
Proof.
  intros Hcur Hst Hbad Hne.
  destruct (first_rejected _ _ Hbad) as (A & v & B & Hitems & HA & HP & Hv).
  unfold reconcile. unfold bind at 1, gets at 1.
  destruct (bindContexts (ctx w)) as [|bc0 bcs] eqn:Hbcs; [congruence|].
  simpl. unfold bind at 1. unfold arrangeElements. unfold bind at 1, gets at 1.
  rewrite Hcur. simpl. rewrite Hitems.
  remember (A ++ v :: B) as l eqn:Hl.
  destruct l as [|x xs]; [destruct A; discriminate|].
  cbv beta iota. rewrite Hl in *. unfold bind at 1.
  rewrite (compute_keys_dup _ _ (mapKey (ctx w)) A v B w);
    [| reflexivity | rewrite Hcur, Hitems; reflexivity | exact HA | exact HP | exact Hv].
  rewrite after_keys_id.
  - reflexivity.
  - simpl. rewrite Hcur, Hitems, <- app_assoc. reflexivity.
  - rewrite Hitems in Hst. rewrite forallb_app in Hst. apply andb_prop in Hst as [H1 H2].
    simpl in H2. apply andb_prop in H2 as [H2 _].
    rewrite forallb_app, H1. simpl. rewrite H2. reflexivity.
Qed.

Lemma duplicate_keys_not_distinct mk items :
  duplicate_keys mk items -> ~ NoDup (keys_of mk items).
Proof.
  intros (i & j & a & b & Hij & Ha & Hb & Hk) Hnd.
  assert (i = j); [|lia].
  eapply NoDup_lookup; [exact Hnd| |].
  - unfold keys_of. rewrite list_lookup_fmap, Ha. reflexivity.
  - unfold keys_of. rewrite list_lookup_fmap, Hb. simpl. rewrite Hk. reflexivity.
Qed.

(** X7. [bindChildren] on an array in which two items have the same key
    under the key function in force throws the duplicate-key error after
    it has pushed the bind context and subscribed the reconciler: the
    binding stays installed, over a parent left as it was given, and the
    array, with its items wrapped, stays the value. *)
Theorem bindChildren_duplicate_stays_bound behave fuel cs render w items :
  currentValue (ctx w) = VArr items ->
  forallb has_properties items = true ->
  duplicate_keys (installed (mapKey (ctx w))) items ->
  exists w',
    doBindChildren behave fuel (Some cs) render w = Raise DuplicateKey w' /\
    currentValue (ctx w') = VArr (wrapped (next_state w) items) /\
    bindContexts (ctx w') = bindContexts (ctx w) ++ [mkBindContext render cs ∅] /\
    observers (ctx w') = observers (ctx w) ++ [mkObserver (nextId (ctx w)) ReconcileFn] /\
    dom_ops (trace w') = dom_ops (trace w).
Proof.
  intros Hcur Hprops Hdup.
  destruct (doBindChildren_start behave fuel cs render w items Hcur Hprops)
    as (w1 & Hstart & Hcur1 & Hmk1 & Hbcs1 & Hobs1 & _ & _ & Hdom1).
  exists w1. split; [|auto].
  rewrite Hstart. unfold bind.
  rewrite (reconcile_rejects _ w1 _ Hcur1); [reflexivity| | |].
  - pose proof (wrapped_states items (next_state w)) as H.
    apply forallb_forall. intros x Hx. rewrite Forall_forall in H.
    apply H, list_elem_of_In, Hx.
  - rewrite Hmk1, keys_of_wrapped. intros [Hnd _].
    exact (duplicate_keys_not_distinct _ _ Hdup Hnd).
  - rewrite Hbcs1. intros H. apply app_eq_nil in H as [_ H]. discriminate.
Qed.

Lemma bindChildren_duplicate_stays_bound_witness :
  let w := fnstate (VArr [item "a"; item "b"; item "a"]) by_id in
  exists w',
    doBindChildren inert_observer 5 (Some []) (fun _ => true) w = Raise DuplicateKey w' /\
    currentValue (ctx w') = VArr (wrapped (next_state w) [item "a"; item "b"; item "a"]) /\
    bindContexts (ctx w') = bindContexts (ctx w) ++ [mkBindContext (fun _ => true) [] ∅] /\
    observers (ctx w') = observers (ctx w) ++ [mkObserver (nextId (ctx w)) ReconcileFn] /\
    dom_ops (trace w') = dom_ops (trace w).
Proof.
  cbv zeta.
  apply (bindChildren_duplicate_stays_bound inert_observer 5 [] (fun _ => true)
           (fnstate (VArr [item "a"; item "b"; item "a"]) by_id)
           [item "a"; item "b"; item "a"]).
  - reflexivity.
  - reflexivity.
  - exists 0, 2, (item "a"), (item "a"). repeat split. lia.
Defined.

(** ** Selection callbacks *)



(** ** Subscriptions and [set] *)





(** ** [reset] *)



(** ** [getPath] reads *)

(** X12. [getPath] is a read: whatever the path and the value, it
    returns or throws, and leaves the container and the trace as they
    were. *)
Theorem getPath_reads_only members path w : leaves w (getPath members path w).
Proof.
  assert (Hred : forall parts curr,
            leaves w (reduce (fun curr part =>
                        let! present := has_property members part curr in
                        if present then ret (get_member members part curr) else ret VUndef)
                      parts curr w)).
  { induction parts as [|p ps IH]; intros curr; simpl; [reflexivity|].
    unfold bind at 1. unfold bind at 1.
    destruct curr; simpl; try reflexivity;
      match goal with |- context [if ?b then _ else _] => destruct b end;
      unfold ret at 1; apply IH. }
  destruct path; simpl; try reflexivity.
  unfold bind, gets. destruct (negb (jstype_eqb (typeof (currentValue (ctx w))) TObject)).
  - reflexivity.
  - apply Hred.
Qed.

(** ** What a pass leaves alone *)












Section Holding.

Context (behave : label -> value -> value -> M World unit)
        (inert : forall l n o w', behave l n o w' = Ret tt w')
        (mk : MapKey) (vals : list value) (sel : gmap string (list label)).

Let ks : list string := (fun v => to_property_key (keyMapper mk v)) <$> vals.

Context (Hnd : NoDup ks) (Hpl : plain ks).






End Holding.






(** ** A bound container given a value that is no array *)

Lemma well_managed_frame w w' :
  bindContexts (ctx w') = bindContexts (ctx w) -> next_node w' = next_node w ->
  well_managed w' = well_managed w.
Proof. unfold well_managed. intros -> ->. reflexivity. Qed.




(** ** Namespaces in names *)

Lemma string_take_app pre rest : string_take (String.length pre) (String.append pre rest) = pre.
Proof. induction pre as [|a pre IH]; simpl; [destruct rest; reflexivity|]. rewrite IH. reflexivity. Qed.

Lemma string_drop_app pre rest : string_drop (String.length pre) (String.append pre rest) = rest.
Proof. induction pre as [|a pre IH]; simpl; [destruct rest; reflexivity|exact IH]. Qed.

Lemma string_take_all s : string_take (String.length s) s = s.
Proof. induction s as [|a s IH]; simpl; [reflexivity|]. rewrite IH. reflexivity. Qed.

Lemma length_append pre rest :
  String.length (String.append pre rest) = String.length pre + String.length rest.
Proof. induction pre as [|a pre IH]; simpl; [reflexivity|]. rewrite IH. reflexivity. Qed.

Lemma lastIndexOf_from_spec c : forall s i found,
  (occurs c s = false /\ lastIndexOf_from c s i found = found) \/
  (exists pre post,
      s = String.append pre (String c post) /\ occurs c post = false /\
      lastIndexOf_from c s i found = (i + Z.of_nat (String.length pre))%Z).
Proof.
  induction s as [|a s IH]; intros i found; simpl.
  - left. auto.
  - destruct (IH (i + 1)%Z (if Ascii.eqb a c then i else found))
      as [[Hno Hr]|(pre & post & -> & Hno & Hr)].
    + destruct (Ascii.eqb a c) eqn:E.
      * right. apply Ascii.eqb_eq in E. subst a. exists EmptyString, s.
        simpl. rewrite Hr. repeat split; auto. lia.
      * left. simpl. auto.
    + right. exists (String a pre), post. simpl. rewrite Hr. repeat split; auto. lia.
Qed.

Lemma string_drop_past pre c post :
  string_drop (S (String.length pre)) (String.append pre (String c post)) = post.
Proof. induction pre as [|a pre IH]; simpl; [reflexivity|exact IH]. Qed.

Lemma slice_within s (a b : nat) :
  a <= b <= String.length s ->
  slice s (Z.of_nat a) (Some (Z.of_nat b)) = string_take (b - a) (string_drop a s).
Proof.
  intros H. unfold slice, slice_index.
  destruct (Z.ltb_spec (Z.of_nat a) 0); [lia|]. destruct (Z.ltb_spec (Z.of_nat b) 0); [lia|].
  rewrite !Z.min_l by lia. rewrite Nat2Z.id. f_equal. lia.
Qed.

Lemma slice_from s (a : nat) :
  a <= String.length s ->
  slice s (Z.of_nat a) None = string_take (String.length s - a) (string_drop a s).
Proof.
  intros H. unfold slice, slice_index.
  destruct (Z.ltb_spec (Z.of_nat a) 0); [lia|].
  rewrite !Z.min_l by lia. rewrite Nat2Z.id. f_equal. lia.
Qed.

(** X16. A name without a colon has no namespace: [hasNs] gives [-1].
    For any other name [hasNs] gives the place of the last colon, and
    [splitNs] at that place cuts the name in the part before it and the
    part after it: the two joined by a colon are the name again, and the
    second has no colon. *)
Theorem splitNs_at_hasNs name :
  (occurs ":" name = false -> Names.hasNs name = (-1)%Z) /\
  (occurs ":" name = true ->
     (0 <= Names.hasNs name < Z.of_nat (String.length name))%Z /\
     let s := Names.splitNs name (Names.hasNs name) in
     String.append (Names.ns s) (String ":" (Names.val s)) = name /\
     occurs ":" (Names.val s) = false).
Proof.
  unfold Names.hasNs, lastIndexOf.
  destruct (lastIndexOf_from_spec ":" name 0%Z (-1)%Z)
    as [[Hno Hr]|(pre & post & -> & Hno & Hr)].
  - split; [intros _; exact Hr|]. intros H. congruence.
  - assert (Hocc : occurs ":" (String.append pre (String ":" post)) = true).
    { clear. induction pre as [|a pre IH]; simpl; [reflexivity|].
      rewrite IH. apply orb_true_r. }
    split; [intros H; congruence|]. intros _. rewrite Hr, Z.add_0_l.
    assert (Hlen : String.length (String.append pre (String ":" post))
                   = String.length pre + S (String.length post)) by apply length_append.
    split; [lia|].
    unfold Names.splitNs. cbn [Names.ns Names.val].
    change 0%Z with (Z.of_nat 0) at 1.
    rewrite (slice_within _ 0 (String.length pre)) by lia.
    replace (Z.of_nat (String.length pre) + 1)%Z with (Z.of_nat (S (String.length pre))) by lia.
    rewrite slice_from by lia.
    rewrite string_drop_past, Hlen.
    replace (String.length pre + S (String.length post) - S (String.length pre))
      with (String.length post) by lia.
    rewrite string_take_all, Nat.sub_0_r.
    change (string_drop 0 (String.append pre (String ":" post)))
      with (String.append pre (String ":" post)).
    rewrite string_take_app. split; [reflexivity|exact Hno].
Qed.

Lemma splitNs_at_hasNs_witness :
  let name := "xlink:href"%string in
  (occurs ":" name = false -> Names.hasNs name = (-1)%Z) /\
  (occurs ":" name = true ->
     (0 <= Names.hasNs name < Z.of_nat (String.length name))%Z /\
     let s := Names.splitNs name (Names.hasNs name) in
     String.append (Names.ns s) (String ":" (Names.val s)) = name /\
     occurs ":" (Names.val s) = false).
Proof. exact (splitNs_at_hasNs "xlink:href"). Defined.

(** ** Attribute objects *)



(** ** The binding of one element *)

(** X18. The replacer of a binding whose element is a unit of a bound
    parent throws a [TypeError] and replaces nothing: the reconciler has
    tagged the unit with its key, and the replacer then assigns to a
    property of [rendered.current], which is [undefined].  (No item of the
    array has the key [undefined].) *)
Theorem updateReplacer_throws_on_units w j bc unit rendered :
  in_sync w = true ->
  bindContexts (ctx w) !! j = Some bc ->
  unit ∈ parent bc ->
  "undefined" ∉ keys_of (mapKey (ctx w)) (array_items (currentValue (ctx w))) ->
  exists msg,
    updateReplacer rendered (mkElCtx unit (parent bc))
    = Raise (TypeError msg) (mkElCtx unit (parent bc)).
Proof.
  intros Hsync Hbc Hunit Hkeys. apply in_sync_spec in Hsync.
  pose proof (sync_contexts _ Hsync j bc Hbc) as Hs.
  pose proof (synced_shows _ _ Hs) as Hshown. simpl in Hshown.
  assert (Hname : to_property_key (key unit) <> "undefined").
  { intros Heq. apply Hkeys. rewrite <- Hshown, <- Heq.
    apply list_elem_of_fmap. exists unit. auto. }
  unfold updateReplacer. simpl.
  destruct (strict_eq (key unit) VUndef) eqn:E.
  - apply strict_eq_eq in E. rewrite E in Hname. exfalso. apply Hname. reflexivity.
  - eexists. reflexivity.
Qed.

Lemma updateReplacer_throws_on_units_witness :
  let bc := default (mkBindContext (fun _ => true) [] ∅) (bindContexts (ctx world_abc) !! 0) in
  exists msg,
    updateReplacer (mkNode 9 VUndef true) (mkElCtx (mkNode 2 (VStr "a") true) (parent bc))
    = Raise (TypeError msg) (mkElCtx (mkNode 2 (VStr "a") true) (parent bc)).
Proof.
  cbv zeta.
  apply (updateReplacer_throws_on_units world_abc 0
           (default (mkBindContext (fun _ => true) [] ∅) (bindContexts (ctx world_abc) !! 0))
           (mkNode 2 (VStr "a") true) (mkNode 9 VUndef true)).
  - vm_compute. reflexivity.
  - vm_compute. reflexivity.
  - vm_compute. left.
  - apply (bool_decide_unpack _). vm_compute. exact I.
Defined.

(** ** [assign] *)



(** ** A key the key loop rejects *)

Section Rejected.

Context (behave : label -> value -> value -> M World unit)
        (inert : forall l n o w', behave l n o w' = Ret tt w')
        (good : World) (items : list value)
        (Hgood : in_sync_facts good)
        (Hbound : bindContexts (ctx good) <> [])
        (Hbad : ~ (NoDup (keys_of (mapKey (ctx good)) items)
                   /\ plain (keys_of (mapKey (ctx good)) items))).

Lemma reconcile_observer_rejects fuel w :
  armed good items w -> length (observers (ctx good)) + 1 < fuel ->
  exists w', reconcile_observer (state behave fuel) (VArr items) (currentValue (ctx good)) w
             = Raise DuplicateKey w' /\ restored good w'.
Proof.
  intros (Hc & Hn & Hd) Hfuel.
  destruct (first_rejected _ _ Hbad) as (A & v & B & Hitems & HA & HP & Hv).
  set (old := currentValue (ctx good)).
  assert (Hold : old = VArr (array_items old)) by apply (sync_items _ Hgood).
  unfold reconcile_observer. unfold bind at 1, gets at 1. rewrite Hc. simpl.
  unfold reconcile. unfold bind at 1, gets at 1. rewrite Hc. simpl.
  destruct (bindContexts (ctx good)) as [|bc0 bcs] eqn:Hbcs; [congruence|].
  simpl. unfold bind at 1. unfold arrangeElements. unfold bind at 1, gets at 1.
  rewrite Hc. simpl. rewrite Hitems.
  remember (A ++ v :: B) as l eqn:Hl.
  destruct l as [|x xs]; [destruct A; discriminate|].
  cbv beta iota. rewrite Hl in *. unfold bind at 1.
  rewrite (compute_keys_dup _ _ (mapKey (ctx good)) A v B w);
    [| rewrite Hc; reflexivity | rewrite Hc, Hitems; reflexivity
     | exact HA | exact HP | exact Hv].
  set (wd := after_keys [] (A ++ [v]) B w).
  assert (Ht : truthy old = true) by (rewrite Hold; reflexivity).
  rewrite Ht.
  destruct fuel as [|fuel]; [lia|].
  unfold bind at 1. unfold bind at 1.
  rewrite state_write_unfold by (rewrite Hold; reflexivity).
  set (wr := set_ctx (set_currentValue old (ctx wd)) wd).
  assert (Hwr : ctx wr = ctx good).
  { subst wr wd. unfold after_keys. simpl. rewrite Hc. subst old.
    destruct (ctx good). reflexivity. }
  assert (Hsr : in_sync_facts wr).
  { eapply in_sync_frame; [exact Hgood|exact Hwr|]. subst wr wd. simpl. exact Hn. }
  unfold bind at 1.
  rewrite (notify_in_sync behave _ _ _ inert); [|exact Hsr|rewrite Hwr; lia].
  unfold ret at 1. unfold ret at 1. unfold throw.
  eexists. split; [reflexivity|].
  split; [exact Hwr|]. split; [subst wr wd; simpl; exact Hn|].
  simpl. rewrite dom_ops_app, dom_ops_notifications, app_nil_r. exact Hd.
Qed.

Lemma notify_rejects fuel : forall steps i w,
  armed good items w ->
  (exists i' o, i <= i' /\ observers (ctx good) !! i' = Some o /\ is_user o = false) ->
  length (observers (ctx good)) - i < steps ->
  length (observers (ctx good)) + 1 < fuel ->
  exists w', notify behave (state behave fuel) steps i (VArr items) (currentValue (ctx good)) w
             = Raise DuplicateKey w' /\ restored good w'.
Proof.
  induction steps as [|steps IH]; intros i w Harm Hex Hsteps Hfuel; [lia|].
  pose proof Harm as (Hc & Hn & Hd).
  assert (Hobs : observers (ctx w) = observers (ctx good)) by (rewrite Hc; reflexivity).
  destruct (observers (ctx good) !! i) as [o|] eqn:Hi.
  - rewrite (notify_step _ _ _ _ _ _ _ o) by (rewrite Hobs; exact Hi).
    unfold bind at 1. unfold call_observer. unfold bind at 1, log_event, modify.
    set (w1 := set_trace _ w).
    assert (Harm1 : armed good items w1).
    { subst w1. repeat split; simpl; auto.
      rewrite dom_ops_app, app_nil_r. exact Hd. }
    destruct (obs_fn o) as [l|] eqn:Hfn.
    + rewrite inert. apply IH; auto.
      * destruct Hex as (i' & o' & Hle & Hi' & Hu).
        exists i', o'. repeat split; auto.
        destruct (decide (i' = i)) as [->|Hne]; [|lia].
        rewrite Hi in Hi'. injection Hi' as <-. unfold is_user in Hu.
        rewrite Hfn in Hu. discriminate.
      * apply lookup_lt_Some in Hi. lia.
    + destruct (reconcile_observer_rejects fuel w1 Harm1 Hfuel) as (w' & Hr & Hres).
      rewrite Hr. eauto.
  - exfalso. destruct Hex as (i' & o' & Hle & Hi' & _).
    apply lookup_ge_None in Hi. apply lookup_lt_Some in Hi'. lia.
Qed.

End Rejected.

(** X20. [set] with an array in which an item has a key that names a
    member of [Object.prototype] throws the duplicate-key error, also when
    the keys of the array are distinct, and rolls back: the container
    after the call is the container before it, and no operation on the
    children of a parent took place.  Such an item cannot be bound. *)
Theorem inherited_key_is_rejected behave fuel w items v :
  (forall l n o w', behave l n o w' = Ret tt w') ->
  in_sync w = true ->
  bindContexts (ctx w) <> [] ->
  existsb (fun o => negb (is_user o)) (observers (ctx w)) = true ->
  v ∈ items ->
  inherited (item_key (mapKey (ctx w)) v) = true ->
  length (observers (ctx w)) + 3 <= fuel ->
  exists w',
    state behave fuel [VArr items] w = Raise DuplicateKey w' /\
    ctx w' = ctx w /\
    dom_ops (trace w') = dom_ops (trace w).
Proof.
  intros Hin Hsync Hbound Hrec Hv Hinh Hfuel. apply in_sync_spec in Hsync.
  assert (Hbad : ~ (NoDup (keys_of (mapKey (ctx w)) items)
                    /\ plain (keys_of (mapKey (ctx w)) items))).
  { intros [_ Hpl]. unfold plain in Hpl. rewrite Forall_forall in Hpl.
    assert (Hk : item_key (mapKey (ctx w)) v ∈ keys_of (mapKey (ctx w)) items).
    { apply list_elem_of_fmap. exists v. auto. }
    apply Hpl in Hk. congruence. }
  destruct fuel as [|fuel]; [lia|].
  rewrite state_write_unfold by reflexivity.
  apply existsb_exists in Hrec as (o & Ho & Hu).
  apply list_elem_of_In, list_elem_of_lookup in Ho as [i Hi].
  apply negb_true_iff in Hu.
  destruct (notify_rejects behave Hin w items Hsync Hbound Hbad fuel fuel 0
              (set_ctx (set_currentValue (VArr items) (ctx w)) w)) as (w' & Hr & Hres).
  - repeat split.
  - exists i, o. repeat split; auto. lia.
  - lia.
  - lia.
  - exists w'. unfold bind. simpl in Hr. rewrite Hr.
    destruct Hres as (Hc & _ & Hd). auto.
Qed.

Lemma inherited_key_is_rejected_witness :
  exists w',
    state inert_observer 5 [VArr [item "a"; item "toString"]] world_abc_watched
    = Raise DuplicateKey w' /\
    ctx w' = ctx world_abc_watched /\
    dom_ops (trace w') = dom_ops (trace world_abc_watched).
Proof.
  apply (inherited_key_is_rejected inert_observer 5 world_abc_watched
           [item "a"; item "toString"] (item "toString")).
  - intros l n o w'. reflexivity.
  - vm_compute. reflexivity.
  - vm_compute. discriminate.
  - vm_compute. reflexivity.
  - right. left.
  - vm_compute. reflexivity.
  - vm_compute. lia.
Defined.

(** ** The cost of a pass *)











Section Cost.

Context (behave : label -> value -> value -> M World unit)
        (inert : forall l n o w', behave l n o w' = Ret tt w')
        (mk : MapKey) (items0 : list value).

Let ks : list string := keys_of mk items0.

Context (Hnd : NoDup ks) (Hpl : plain ks) (Hne : items0 <> []).






End Cost.


